(** * parse_blob_cache.py: a shallow embedding and its properties

    The program reads an Android blob cache file: a 4-byte magic value and
    then records, each a 20-byte header followed by a payload that holds
    [+]-separated metadata text and a JPEG thumbnail.  It either stores the
    parsed records in a SQLite database or writes a sanitized copy of the
    file.

    The development has three layers:
    - the Python runtime operations the program calls ([bytes] slicing and
      [find], [struct.unpack], the UTF-16/UTF-32 decoders, [re]);
    - the program itself ([detect_codec], the body of the [while True] loop
      of [main], and [main]);
    - the properties of the program. *)

From Stdlib Require Import Ascii String Strings.Byte.
From Stdlib Require Import List ZArith Lia Bool Sorted.
Import ListNotations.
Open Scope Z_scope.

(** ** Python values *)

(** [bytes] objects. *)
Definition bytes := list byte.

(** [str] objects: sequences of Unicode code points. *)
Definition str := list Z.

Definition byte_val (b : byte) : Z := Z.of_N (Byte.to_N b).

(** A [str] literal, from its ASCII spelling. *)
Definition lit (s : string) : str :=
  map (fun a => Z.of_N (N_of_ascii a)) (list_ascii_of_string s).

(** ** Slicing and searching *)

Module Py.

(** Python's normalisation of a slice bound [k] for a sequence of length
    [len]: a negative bound counts from the end, and the result is clamped
    to [0 .. len]. *)
Definition slice_index (len : nat) (k : Z) : nat :=
  if k <? 0 then Z.to_nat (Z.max 0 (k + Z.of_nat len))
  else Nat.min (Z.to_nat k) len.

(** [l[:k]] *)
Definition slice_to {A : Type} (k : Z) (l : list A) : list A :=
  firstn (slice_index (length l) k) l.

(** [l[k:]] *)
Definition slice_from {A : Type} (k : Z) (l : list A) : list A :=
  skipn (slice_index (length l) k) l.

Fixpoint startswith (sub data : bytes) : bool :=
  match sub, data with
  | [], _ => true
  | _ :: _, [] => false
  | x :: sub', y :: data' => Byte.eqb x y && startswith sub' data'
  end.

Fixpoint find_from (sub data : bytes) (i : Z) : Z :=
  if startswith sub data then i
  else match data with
       | [] => -1
       | _ :: data' => find_from sub data' (i + 1)
       end.

(** [data.find(sub)]: the lowest index where [sub] occurs, [-1] when it
    does not occur. *)
Definition find (sub data : bytes) : Z := find_from sub data 0.

(** [b'\x00' * n] *)
Definition zeros (n : nat) : bytes := repeat x00 n.

End Py.

(** ** struct.unpack *)

Definition le_u16 (b0 b1 : byte) : Z :=
  Z.lor (byte_val b0) (Z.shiftl (byte_val b1) 8).

Definition le_u32 (b0 b1 b2 b3 : byte) : Z :=
  Z.lor (Z.lor (byte_val b0) (Z.shiftl (byte_val b1) 8))
        (Z.lor (Z.shiftl (byte_val b2) 16) (Z.shiftl (byte_val b3) 24)).

(** [unpack('<8s3I', buf)]: an 8-byte string and three little-endian
    unsigned 32-bit integers.  [None] stands for [struct.error], which
    [unpack] raises when [buf] is not exactly 20 bytes long. *)
Definition unpack_8s3I (buf : bytes) : option (bytes * Z * Z * Z) :=
  match buf with
  | [k0; k1; k2; k3; k4; k5; k6; k7;
     c0; c1; c2; c3; r0; r1; r2; r3; p0; p1; p2; p3] =>
      Some ([k0; k1; k2; k3; k4; k5; k6; k7],
            le_u32 c0 c1 c2 c3, le_u32 r0 r1 r2 r3, le_u32 p0 p1 p2 p3)
  | _ => None
  end.

(** ** Codecs *)

Inductive codec := utf_32_le | utf_16_le.

(** The [errors] argument of [bytes.decode]. *)
Inductive errors := strict | ignore.

(** What the decoder does at an undecodable place: under [strict] it
    raises [UnicodeDecodeError] ([None]); under [ignore] it skips the
    offending bytes and goes on with [resume]. *)
Definition on_error (e : errors) (resume : option str) : option str :=
  match e with
  | strict => None
  | ignore => resume
  end.

Definition emit (c : Z) (rest : option str) : option str :=
  option_map (cons c) rest.

Definition is_surrogate (c : Z) : bool := (0xD800 <=? c) && (c <=? 0xDFFF).
Definition is_high_surrogate (c : Z) : bool := (0xD800 <=? c) && (c <=? 0xDBFF).
Definition is_low_surrogate (c : Z) : bool := (0xDC00 <=? c) && (c <=? 0xDFFF).

Definition join_surrogates (hi lo : Z) : Z :=
  0x10000 + Z.lor (Z.shiftl (Z.land hi 0x3FF) 10) (Z.land lo 0x3FF).

(** UTF-32-LE: four bytes per code point.  A surrogate or a value of
    [0x110000] and more is an error over those four bytes; one to three
    bytes left at the end are an error ("truncated data") over the rest of
    the input. *)
Fixpoint decode_utf_32_le (e : errors) (data : bytes) : option str :=
  match data with
  | [] => Some []
  | b0 :: b1 :: b2 :: b3 :: rest =>
      let ch := le_u32 b0 b1 b2 b3 in
      if is_surrogate ch || (0x110000 <=? ch)
      then on_error e (decode_utf_32_le e rest)
      else emit ch (decode_utf_32_le e rest)
  | _ => on_error e (Some [])
  end.

(** UTF-16-LE: two bytes per code unit, a high surrogate followed by a
    low one making one code point.  A lone low surrogate, or a high
    surrogate followed by another code unit, is an error over the two
    bytes of that surrogate; a high surrogate with fewer than two bytes
    after it, or a single byte left at the end, is an error over the rest
    of the input. *)
Fixpoint decode_utf_16_le (e : errors) (data : bytes) : option str :=
  match data with
  | [] => Some []
  | [_] => on_error e (Some [])
  | b0 :: b1 :: rest =>
      let u := le_u16 b0 b1 in
      if is_high_surrogate u then
        match rest with
        | c0 :: c1 :: rest' =>
            let u' := le_u16 c0 c1 in
            if is_low_surrogate u'
            then emit (join_surrogates u u') (decode_utf_16_le e rest')
            else on_error e (decode_utf_16_le e rest)
        | _ => on_error e (Some [])
        end
      else if is_low_surrogate u then on_error e (decode_utf_16_le e rest)
      else emit u (decode_utf_16_le e rest)
  end.

(** [data.decode(codec, errors)] *)
Definition decode (c : codec) (e : errors) (data : bytes) : option str :=
  match c with
  | utf_32_le => decode_utf_32_le e data
  | utf_16_le => decode_utf_16_le e data
  end.

(** [text.encode('utf-16-le')] for text of the Basic Multilingual Plane,
    used to write down test payloads. *)
Definition byte_of (z : Z) : byte :=
  match Byte.of_N (Z.to_N (z mod 256)) with
  | Some b => b
  | None => x00
  end.

Definition encode_utf_16_le (s : str) : bytes :=
  flat_map (fun c => [byte_of c; byte_of (c / 256)]) s.

(** ** Regular expressions

    The fragment of Python's [re] that [meta_re] is written in, matched
    the way [re] matches: by backtracking, each alternative tried in
    priority order and the first overall success taken. *)

Inductive regex :=
| Chr (c : Z)                       (* a literal character *)
| Dot                               (* [.]: any character but a newline *)
| Digit                             (* [\d] *)
| Seq (r1 r2 : regex)               (* [r1 r2] *)
| Group (i : nat) (r : regex)       (* [(r)], the pattern's [i]-th group *)
| Repeat (r : regex) (lo : nat) (hi : option nat) (greedy : bool).
                                    (* [r{lo,hi}] and [r{lo,hi}?] *)

Declare Scope regex_scope.
Delimit Scope regex_scope with regex.
Bind Scope regex_scope with regex.
Infix ">>" := Seq (at level 61, right associativity) : regex_scope.

(** [r+?], [r+], [r?], [r*] *)
Definition lazy_plus (r : regex) : regex := Repeat r 1 None false.
Definition plus (r : regex) : regex := Repeat r 1 None true.
Definition opt (r : regex) : regex := Repeat r 0 (Some 1%nat) true.
Definition star (r : regex) : regex := Repeat r 0 None true.

(** The text of the groups that took part in the match so far, the most
    recent capture of a group first. *)
Definition captures := list (nat * str).

Definition set_group (i : nat) (v : str) (c : captures) : captures :=
  (i, v) :: c.

Fixpoint group (i : nat) (c : captures) : option str :=
  match c with
  | [] => None
  | (j, v) :: c' => if Nat.eqb i j then Some v else group i c'
  end.

(** A continuation: the rest of the pattern, given the text still to be
    read and the captures; it answers with the end of the whole match. *)
Definition cont := str -> captures -> option (str * captures).

(** The characters of [s] read before [s'], a suffix of [s]. *)
Definition taken (s s' : str) : str :=
  firstn (length s - length s') s.

Definition orelse {A : Type} (a : option A) (b : unit -> option A) : option A :=
  match a with
  | Some x => Some x
  | None => b tt
  end.

(** [loop body greedy n lo hi s c k]: repeat [body] at least [lo] and at
    most [hi] times, then go on with [k].  A greedy repetition tries one
    more iteration before it tries to stop, a lazy one the other way
    round.  An iteration has to read at least one character (each repeated
    sub-pattern of [meta_re] does); [n], at least the length of [s],
    bounds the number of iterations that are left, so that at [n = 0] the
    text is exhausted and no further iteration exists. *)
Fixpoint loop (body : str -> captures -> cont -> option (str * captures))
    (greedy : bool) (n : nat) (lo : nat) (hi : option nat)
    (s : str) (c : captures) (k : cont) {struct n} : option (str * captures) :=
  let again (_ : unit) :=
    match n with
    | O => None
    | S n' =>
        body s c (fun s' c' =>
          if (length s' <? length s)%nat
          then loop body greedy n' (pred lo) (option_map pred hi) s' c' k
          else None)
    end in
  match lo, hi with
  | S _, _ => again tt
  | O, Some O => k s c
  | O, _ => if greedy then orelse (again tt) (fun _ => k s c)
            else orelse (k s c) again
  end.

Section Unicode.

(** Whether a code point outside ASCII is a decimal digit (Unicode
    category Nd).  The table belongs to the Unicode database of the Python
    runtime, not to the program, which is verified for every such table. *)
Variable unicode_nd : Z -> bool.

(** [\d] in a [str] pattern: a Unicode decimal digit, in ASCII [0-9]. *)
Definition isdecimal (c : Z) : bool :=
  if c <? 128 then (48 <=? c) && (c <=? 57) else unicode_nd c.

Fixpoint run (r : regex) (s : str) (c : captures) (k : cont) {struct r}
  : option (str * captures) :=
  match r with
  | Chr x =>
      match s with
      | a :: s' => if a =? x then k s' c else None
      | [] => None
      end
  | Dot =>
      match s with
      | a :: s' => if a =? 10 then None else k s' c
      | [] => None
      end
  | Digit =>
      match s with
      | a :: s' => if isdecimal a then k s' c else None
      | [] => None
      end
  | Seq r1 r2 => run r1 s c (fun s' c' => run r2 s' c' k)
  | Group i r1 => run r1 s c (fun s' c' => k s' (set_group i (taken s s') c'))
  | Repeat r1 lo hi greedy => loop (run r1) greedy (length s) lo hi s c k
  end.

(** A match of [r] that starts at the beginning of [s]: the text after
    the match and the captures. *)
Definition match_at (r : regex) (s : str) : option (str * captures) :=
  run r s [] (fun s' c => Some (s', c)).

(** What [findall] reports for one match of a pattern with five groups,
    as [meta_re] is: the tuple of the text of groups 1 to 5, the empty
    string for a group that took no part in the match. *)
Definition group_text (c : captures) (i : nat) : str :=
  match group i c with
  | Some v => v
  | None => []
  end.

Definition groups5 (c : captures) : str * str * str * str * str :=
  (group_text c 1, group_text c 2, group_text c 3, group_text c 4,
   group_text c 5).

(** The matches of [r] in [s], left to right, none overlapping another:
    the search for the next match starts where the last one ended (one
    character further after an empty match), and at every start position
    that has no match it moves on by one character.  [fuel] is more than
    the length of [s]. *)
Fixpoint findall_from (fuel : nat) (r : regex) (s : str)
  : list (str * str * str * str * str) :=
  match fuel with
  | O => []
  | S fuel' =>
      let skip_one (_ : unit) :=
        match s with
        | [] => []
        | _ :: s' => findall_from fuel' r s'
        end in
      match match_at r s with
      | Some (s', c) =>
          groups5 c ::
          (if (length s' <? length s)%nat then findall_from fuel' r s'
           else skip_one tt)
      | None => skip_one tt
      end
  end.

(** [r.findall(s)] for a pattern [r] with five groups. *)
Definition findall (r : regex) (s : str) : list (str * str * str * str * str) :=
  findall_from (S (length s)) r s.

(** [meta_re = re.compile('(.+?)\+(\d?)\+?(.+?)\+(\d{10,16})\+?(.+)*')] *)
Definition meta_re : regex :=
  (Group 1 (lazy_plus Dot) >>                       (* (.+?)       *)
   Chr 43 >>                                        (* \+          *)
   Group 2 (opt Digit) >>                           (* (\d?)       *)
   opt (Chr 43) >>                                  (* \+?         *)
   Group 3 (lazy_plus Dot) >>                       (* (.+?)       *)
   Chr 43 >>                                        (* \+          *)
   Group 4 (Repeat Digit 10 (Some 16%nat) true) >>  (* (\d{10,16}) *)
   opt (Chr 43) >>                                  (* \+?         *)
   star (Group 5 (plus Dot)))%regex.                (* (.+)*       *)

End Unicode.

(** ** The process: what the program reads and what it leaves behind *)

(** The tuple [meta_list] of the five metadata fields, each a string or
    [None]. *)
Definition fields : Type :=
  option str * option str * option str * option str * option str.

(** A line printed to standard output. *)
Inductive line :=
| not_a_blob_cache                      (* Error: Not a blob cache file *)
| codec_detection_error (data : bytes)  (* Codec detection error: {data} *)
| not_understood (offset : Z)
    (* Metadata in blob at Offset: {offset} not understood *)
| dump (offset : Z) (meta_list : fields) (thumb : bytes).
    (* print(offset, meta_list, thumbnail[:4]) *)

(** The values bound to an [INSERT INTO blob]. *)
Record blob_row := {
  Offset : Z;
  InternalPath : option str;
  Unk : option str;
  OriginalFilePath : option str;
  TimeStamp : option str;
  Extra : option str;
  Thumbnail : bytes;
  RawMetadata : bytes }.

(** The values bound to an [INSERT INTO blob_header]. *)
Record blob_header_row := {
  HOffset : Z;
  Key : bytes;
  Checksum : Z;
  BlobOffset : Z;
  BlobLength : Z;
  RawBlobHeader : bytes }.

(** The state of the process: the read position of the input file [f],
    what was printed, what was written to the sanitized file [o] and
    whether it was closed, the rows inserted through the cursor [c] and
    whether [db.commit()] was reached. *)
Record world := {
  pos : nat;
  stdout : list line;
  o : bytes;
  o_closed : bool;
  blob : list blob_row;
  blob_header : list blob_header_row;
  committed : bool }.

Definition start : world :=
  {| pos := 0; stdout := []; o := []; o_closed := false;
     blob := []; blob_header := []; committed := false |}.

Definition set_pos (p : nat) (w : world) : world :=
  {| pos := p; stdout := stdout w; o := o w; o_closed := o_closed w;
     blob := blob w; blob_header := blob_header w; committed := committed w |}.

Definition add_line (l : line) (w : world) : world :=
  {| pos := pos w; stdout := stdout w ++ [l]; o := o w;
     o_closed := o_closed w; blob := blob w; blob_header := blob_header w;
     committed := committed w |}.

Definition add_o (b : bytes) (w : world) : world :=
  {| pos := pos w; stdout := stdout w; o := o w ++ b;
     o_closed := o_closed w; blob := blob w; blob_header := blob_header w;
     committed := committed w |}.

Definition set_o_closed (w : world) : world :=
  {| pos := pos w; stdout := stdout w; o := o w; o_closed := true;
     blob := blob w; blob_header := blob_header w; committed := committed w |}.

Definition add_blob (r : blob_row) (w : world) : world :=
  {| pos := pos w; stdout := stdout w; o := o w; o_closed := o_closed w;
     blob := blob w ++ [r]; blob_header := blob_header w;
     committed := committed w |}.

Definition add_blob_header (r : blob_header_row) (w : world) : world :=
  {| pos := pos w; stdout := stdout w; o := o w; o_closed := o_closed w;
     blob := blob w; blob_header := blob_header w ++ [r];
     committed := committed w |}.

Definition set_committed (w : world) : world :=
  {| pos := pos w; stdout := stdout w; o := o w; o_closed := o_closed w;
     blob := blob w; blob_header := blob_header w; committed := true |}.

Inductive exn := struct_error | UnicodeDecodeError.

(** How a computation ends: with a value, with [sys.exit(code)], or with
    an exception that nothing catches. *)
Inductive result (A : Type) :=
| Ok (a : A)
| SysExit (code : Z)
| Uncaught (e : exn).
Arguments Ok {A} a.
Arguments SysExit {A} code.
Arguments Uncaught {A} e.

Definition M (A : Type) : Type := world -> result A * world.

Definition ret {A : Type} (a : A) : M A := fun w => (Ok a, w).

Definition bind {A B : Type} (m : M A) (k : A -> M B) : M B :=
  fun w =>
    match m w with
    | (Ok a, w') => k a w'
    | (SysExit code, w') => (SysExit code, w')
    | (Uncaught e, w') => (Uncaught e, w')
    end.

Notation "x <- m ;; k" := (bind m (fun x => k))
  (at level 100, m at next level, right associativity).
Notation "' p <- m ;; k" := (bind m (fun x => let p := x in k))
  (at level 100, p pattern, m at next level, right associativity).
Notation "m ;; k" := (bind m (fun _ => k))
  (at level 100, right associativity).

Definition sys_exit {A : Type} (code : Z) : M A := fun w => (SysExit code, w).
Definition raise {A : Type} (e : exn) : M A := fun w => (Uncaught e, w).
Definition print (l : line) : M unit := fun w => (Ok tt, add_line l w).

(** [f.tell()] *)
Definition f_tell : M nat := fun w => (Ok (pos w), w).

(** [f.read(n)]: the next [n] bytes of the file, fewer when the file ends
    before. *)
Definition f_read (file : bytes) (n : Z) : M bytes := fun w =>
  let b := firstn (Z.to_nat n) (skipn (pos w) file) in
  (Ok b, set_pos (pos w + length b) w).

(** [o.write(b)] and [o.close()] *)
Definition o_write (b : bytes) : M unit := fun w => (Ok tt, add_o b w).
Definition o_close : M unit := fun w => (Ok tt, set_o_closed w).

(** [c.execute('INSERT INTO blob ...', row)],
    [c.execute('INSERT INTO blob_header ...', row)] and [db.commit()] *)
Definition insert_blob (r : blob_row) : M unit :=
  fun w => (Ok tt, add_blob r w).
Definition insert_blob_header (r : blob_header_row) : M unit :=
  fun w => (Ok tt, add_blob_header r w).
Definition db_commit : M unit := fun w => (Ok tt, set_committed w).

(** ** The program *)

(** [jpeg_header = b'\xff\xd8\xff'] *)
Definition jpeg_header : bytes := [xff; xd8; xff].

(** The file header of a blob cache, [b'\x10\x85\x24\xBD']. *)
Definition magic : bytes := [x10; x85; x24; xbd].

(** The default value of [detect_codec]'s parameter [codecs]. *)
Definition default_codecs : list (codec * Z) :=
  [(utf_32_le, 4); (utf_16_le, 2)].

(** [detect_codec]: the first codec of [codecs] that decodes [data]
    without a [UnicodeDecodeError], with its code point length; when none
    does, a message and [sys.exit(1)]. *)
Fixpoint detect_codec (data : bytes) (codecs : list (codec * Z))
  : M (codec * Z) :=
  match codecs with
  | (codec, cp_len) :: codecs' =>
      match decode codec strict data with
      | Some _ => ret (codec, cp_len)
      | None => detect_codec data codecs'
      end
  | [] => print (codec_detection_error data) ;; sys_exit 1
  end.

(** The command line options the loop reads. *)
Record args := { database : bool; sanitize : bool }.

(** [parser.parse_args()], from whether [-d] and [-s] were given:
    [--database] is a [store_true] option whose default is [True]. *)
Definition parse_args (d s : bool) : args :=
  {| database := if d then true else true; sanitize := s |}.

(** How an iteration of [while True] ends. *)
Inductive flow := Continue | Break.

(** Python's truth value of [xtra], a string or [None]. *)
Definition truthy (x : option str) : bool :=
  match x with
  | Some (_ :: _) => true
  | _ => false
  end.

Definition bytes_eqb (x y : bytes) : bool :=
  if list_eq_dec Byte.byte_eq_dec x y then true else false.

(** The split of a payload into metadata and thumbnail:
    [metadata_end = data.find(jpeg_header)], [metadata = data[:metadata_end]]
    and [thumbnail = data[metadata_end:]]. *)
Definition segment (data : bytes) : bytes * bytes :=
  let metadata_end := Py.find jpeg_header data in
  (Py.slice_to metadata_end data, Py.slice_from metadata_end data).

(** What the sanitized file gets for a thumbnail:
    [jpeg_header + b'\x00' * len(thumbnail[4:])]. *)
Definition zeroed (thumbnail : bytes) : bytes :=
  jpeg_header ++ Py.zeros (length (Py.slice_from 4 thumbnail)).

Section Main.

(** The Unicode table of the runtime, see [isdecimal]. *)
Variable unicode_nd : Z -> bool.
Variable a : args.
(** The content of the file [args.FILE]. *)
Variable file : bytes.

(** [fsize = f.seek(0, 2)] *)
Definition fsize : nat := length file.

(** The loop body from the split of the payload on: what is done with a
    record that was read at [offset], with header [rec_header] and payload
    [data]. *)
Definition process (offset : nat) (rec_header key : bytes)
    (chksum recoffset payloadlen : Z) (data : bytes) : M flow :=
  let '(metadata, thumbnail) := segment data in
  if sanitize a then
    o_write rec_header ;;
    o_write metadata ;;
    o_write (zeroed thumbnail) ;;
    ret Continue
  else
    '(codec, cp_len) <- detect_codec (Py.slice_to 4 metadata) default_codecs ;;
    match decode codec ignore metadata with
    | None => raise UnicodeDecodeError
    | Some decoded_meta =>
      meta_list <-
        match findall unicode_nd meta_re decoded_meta with
        | (apath, unk, fpath, ts, xtra) :: _ =>
            ret (Some apath, Some unk, Some fpath, Some ts, Some xtra)
        | [] =>
            print (not_understood (Z.of_nat offset)) ;;
            ret (None, None, None, None, None)
        end ;;
      if database a then
        let '(apath, unk, fpath, ts, xtra) := meta_list in
        let xtra := if truthy xtra then xtra else None in
        insert_blob
          {| Offset := Z.of_nat offset; InternalPath := apath; Unk := unk;
             OriginalFilePath := fpath; TimeStamp := ts; Extra := xtra;
             Thumbnail := thumbnail; RawMetadata := metadata |} ;;
        insert_blob_header
          {| HOffset := Z.of_nat offset; Key := key; Checksum := chksum;
             BlobOffset := recoffset; BlobLength := payloadlen;
             RawBlobHeader := rec_header |} ;;
        ret Continue
      else
        print (dump (Z.of_nat offset) meta_list (Py.slice_to 4 thumbnail)) ;;
        ret Continue
    end.

(** The body of the [while True] loop of [main]. *)
Definition iteration : M flow :=
  offset <- f_tell ;;
  if (offset =? fsize)%nat then ret Break else
  rec_header <- f_read file 20 ;;
  match unpack_8s3I rec_header with
  | None => raise struct_error
  | Some (key, chksum, recoffset, payloadlen) =>
      data <- f_read file payloadlen ;;
      process offset rec_header key chksum recoffset payloadlen data
  end.

(** [while True: body]; [None] when [fuel] iterations did not end it. *)
Fixpoint while_true (fuel : nat) (body : M flow) (w : world)
  : option (result unit * world) :=
  match fuel with
  | O => None
  | S fuel' =>
      match body w with
      | (Ok Continue, w') => while_true fuel' body w'
      | (Ok Break, w') => Some (Ok tt, w')
      | (SysExit code, w') => Some (SysExit code, w')
      | (Uncaught e, w') => Some (Uncaught e, w')
      end
  end.

(** What [main] does before the loop, once the files are open: it reads
    the file header, quits if it is not a blob cache's, and copies it to
    the sanitized file. *)
Definition before_loop : M unit :=
  file_header <- f_read file 4 ;;
  if negb (bytes_eqb file_header magic)
  then print not_a_blob_cache ;; sys_exit 1
  else if sanitize a then o_write file_header else ret tt.

(** What [main] does after the loop. *)
Definition after_loop : M unit :=
  (if database a && negb (sanitize a) then db_commit else ret tt) ;;
  if sanitize a then o_close else ret tt.

(** [main], from the opening of the files on.  The sanitized file and the
    database start empty.  Every iteration that continues has read a
    20-byte header, so [S fsize] iterations are enough: [main_returns]
    shows that the loop always ends within them. *)
Definition main : option (result unit * world) :=
  match before_loop start with
  | (Ok _, w) =>
      match while_true (S fsize) iteration w with
      | Some (Ok _, w') => Some (after_loop w')
      | other => other
      end
  | (SysExit code, w) => Some (SysExit code, w)
  | (Uncaught e, w) => Some (Uncaught e, w)
  end.

End Main.

(** The two ways the program is run: [python parse_blob_cache.py FILE]
    and [python parse_blob_cache.py -s FILE]. *)
Definition database_run : args := parse_args false false.
Definition sanitize_run : args := parse_args false true.

(** * The vocabulary of the properties *)

(** ** Payloads, records and files *)

(** [sub] occurs in [data]. *)
Definition occurs (sub data : bytes) : Prop :=
  exists pre post, data = pre ++ sub ++ post.

(** What the two reads of an iteration that starts at position [p] of
    [file] return: the header, and the payload for a declared length. *)
Definition header_at (file : bytes) (p : nat) : bytes :=
  firstn 20 (skipn p file).

Definition payload_at (file : bytes) (p : nat) (payloadlen : Z) : bytes :=
  firstn (Z.to_nat payloadlen) (skipn (p + 20) file).

(** [tiles body records]: [body] is made of the records [records], each a
    20-byte header followed by as many bytes of payload as the header
    declares, one after the other and with nothing left over. *)
Inductive tiles : bytes -> list (bytes * bytes) -> Prop :=
| tiles_nil : tiles [] []
| tiles_cons h key chksum recoffset payloadlen payload body records :
    unpack_8s3I h = Some (key, chksum, recoffset, payloadlen) ->
    payloadlen = Z.of_nat (length payload) ->
    tiles body records ->
    tiles (h ++ payload ++ body) ((h, payload) :: records).

(** The sum of [20 + payloadLength] over the records. *)
Definition records_size (records : list (bytes * bytes)) : nat :=
  fold_right (fun r n => (20 + length (snd r) + n)%nat) 0%nat records.


(** What the sanitized file gets for the records. *)
Definition sanitized (records : list (bytes * bytes)) : bytes :=
  flat_map
    (fun r => fst r ++ fst (segment (snd r)) ++ zeroed (snd (segment (snd r))))
    records.

(** ** What is detected and stored *)

(** The codec [detect_codec] settles on, [None] when it gives up. *)
Definition detected (data : bytes) : option (codec * Z) :=
  match decode utf_32_le strict data, decode utf_16_le strict data with
  | Some _, _ => Some (utf_32_le, 4)
  | None, Some _ => Some (utf_16_le, 2)
  | None, None => None
  end.



(** The rows stored for a record with payload [data] whose metadata
    fields are [m]. *)
Definition stored_blob (offset : nat) (m : fields) (data : bytes) : blob_row :=
  let '(apath, unk, fpath, ts, xtra) := m in
  {| Offset := Z.of_nat offset; InternalPath := apath; Unk := unk;
     OriginalFilePath := fpath; TimeStamp := ts;
     Extra := if truthy xtra then xtra else None;
     Thumbnail := snd (segment data); RawMetadata := fst (segment data) |}.

Definition stored_header (offset : nat) (h key : bytes)
    (chksum recoffset payloadlen : Z) : blob_header_row :=
  {| HOffset := Z.of_nat offset; Key := key; Checksum := chksum;
     BlobOffset := recoffset; BlobLength := payloadlen; RawBlobHeader := h |}.

(** The integer that a text of ASCII digits spells, which is what a
    column declared [INTEGER] ([Unk], [TimeStamp]) holds for it. *)
Definition decimal_value (s : str) : Z :=
  fold_left (fun acc c => 10 * acc + (c - 48)) s 0.

(** ** Matching *)

(** Whether [r] holds the group [i]. *)
Fixpoint mentions (i : nat) (r : regex) : bool :=
  match r with
  | Chr _ | Dot | Digit => false
  | Seq r1 r2 => mentions i r1 || mentions i r2
  | Group j r1 => Nat.eqb i j || mentions i r1
  | Repeat r1 _ _ _ => mentions i r1
  end.

(** What a sub-pattern may do between the text and captures it is given
    and those it hands to its continuation: read on, and leave the group
    [i], which it does not hold, as it is. *)
Definition advance (i : nat) (s : str) (c : captures) (s' : str)
    (c' : captures) : Prop :=
  (length s' <= length s)%nat /\ group i c' = group i c.

(** A sub-pattern that succeeds has called its continuation with
    success. *)
Definition calls (i : nat)
    (body : str -> captures -> cont -> option (str * captures)) : Prop :=
  forall s c k res,
    body s c k = Some res ->
    exists s' c', k s' c' = Some res /\ advance i s c s' c'.

(** The two cases of what [findall] reports for [meta_re]: no match, or a
    first match with its five groups. *)
Ltac first_match nd text :=
  destruct (findall nd meta_re text)
    as [|[[[[?apath ?unk] ?fpath] ?ts] ?xtra] ?ms].

(** ** Sample files *)

(** A Unicode table with no decimal digit outside ASCII, for the sample
    runs; none of them holds a character outside ASCII. *)
Definition ascii_only : Z -> bool := fun _ => false.

(** The read position after the file header. *)
Definition after_magic (w : world) : world := set_pos 4 w.

(** A record header with key [ABCDEFGH], checksum 1, blob offset 0 and
    the payload length [n], a byte. *)
Definition header_of (n : byte) : bytes :=
  [x41; x42; x43; x44; x45; x46; x47; x48;
   x01; x00; x00; x00;  x00; x00; x00; x00;  n; x00; x00; x00].

(** The file of the specification's scenario: one record whose payload is
    the UTF-16-LE text [thumb1+0+/sdcard/img.jpg+1600000000+], the marker
    and ten zero bytes, 85 bytes in all. *)
Definition scenario_payload : bytes :=
  encode_utf_16_le (lit "thumb1+0+/sdcard/img.jpg+1600000000+") ++
  jpeg_header ++ Py.zeros 10.

Definition scenario_file : bytes :=
  magic ++ header_of x55 ++ scenario_payload.

(** The scenario's file with the path field left out of the metadata:
    [thumb1+0++1600000000+]. *)
Definition pathless_file : bytes :=
  magic ++ header_of x37 ++
  encode_utf_16_le (lit "thumb1+0++1600000000+") ++
  jpeg_header ++ Py.zeros 10.

(** The scenario's payload with the marker cut short: [FF D8] only. *)
Definition markerless_payload : bytes :=
  encode_utf_16_le (lit "thumb1+0+/sdcard/img.jpg+1600000000+") ++ [xff; xd8].

Definition markerless_file : bytes :=
  magic ++ header_of x4a ++ markerless_payload.

(** One record whose metadata, UTF-16 text without a [+], is not
    understood. *)
Definition unparsed_file : bytes :=
  magic ++ header_of x16 ++ encode_utf_16_le (lit "no fields") ++
  jpeg_header ++ [x00].

(** One record without metadata: its payload is a thumbnail. *)
Definition bare_thumbnail_file : bytes :=
  magic ++ header_of x0d ++ jpeg_header ++ Py.zeros 10.

(** One record whose metadata sample is [00 DC 00 DC]: a code point past
    [0x10FFFF] as UTF-32, a lone low surrogate as UTF-16. *)
Definition undecodable_file : bytes :=
  magic ++ header_of x07 ++ [x00; xdc; x00; xdc] ++ jpeg_header.


(** A record whose header declares 100 bytes of payload, of which the
    file holds five. *)
Definition truncated_payload_file : bytes :=
  magic ++ header_of x64 ++ jpeg_header ++ Py.zeros 2.

(** A complete record followed by five bytes, too few for a header. *)
Definition truncated_header_file : bytes :=
  magic ++ header_of x03 ++ jpeg_header ++ [x41; x42; x43; x44; x45].

(** The bytes of the records stored so far, in the order of insertion:
    for each record its raw header, its raw metadata and its thumbnail. *)
Definition stored_bytes (w : world) : bytes :=
  flat_map (fun r => RawBlobHeader (fst r) ++ RawMetadata (snd r) ++
                     Thumbnail (snd r))
    (combine (blob_header w) (blob w)).

(** What holds of a run in database mode that has read the file up to
    position [p]: nothing was written to the sanitized file, the two
    tables hold a row each for every record read, with the same offset,
    the offsets increase, each is the position of a 20-byte header in the
    first [p] bytes, and the first [p] bytes are the file header followed
    by the bytes stored. *)
Definition database_state (file : bytes) (p : nat) (w : world) : Prop :=
  o w = [] /\ o_closed w = false /\
  (4 <= p <= pos w)%nat /\ (pos w <= fsize file)%nat /\
  length (blob_header w) = length (blob w) /\
  map Offset (blob w) = map HOffset (blob_header w) /\
  StronglySorted Z.lt (map Offset (blob w)) /\
  Forall (fun x => 4 <= x /\ x + 20 <= Z.of_nat p) (map Offset (blob w)) /\
  firstn p file = firstn 4 file ++ stored_bytes w.

(** Two records with the same header, the same metadata and payloads of
    the same length: they differ in their thumbnails at most. *)
Definition same_but_thumbnail (r1 r2 : bytes * bytes) : Prop :=
  fst r1 = fst r2 /\
  fst (segment (snd r1)) = fst (segment (snd r2)) /\
  length (snd r1) = length (snd r2).

(** The scenario's payload with another image after the marker. *)
Definition repainted_payload : bytes :=
  encode_utf_16_le (lit "thumb1+0+/sdcard/img.jpg+1600000000+") ++
  jpeg_header ++ [xe0; x00; x10; x4a; x46; x49; x46; x00; xff; xd9].

(** ** The name of the sanitized file *)

(** [s.rsplit(sep, 1)] for a separator of one character: [s] split at the
    last [sep], or [s] alone when it holds no [sep]. *)
Fixpoint rsplit_last (sep : Z) (s : str) : option (str * str) :=
  match s with
  | [] => None
  | x :: s' =>
      match rsplit_last sep s' with
      | Some (l, r) => Some (x :: l, r)
      | None => if x =? sep then Some ([], s') else None
      end
  end.

Definition rsplit1 (sep : Z) (s : str) : list str :=
  match rsplit_last sep s with
  | Some (l, r) => [l; r]
  | None => [s]
  end.

(** [fname = args.FILE.rsplit('.', 1)] and
    [fname = fname[0] + '_sanitized.' + fname[1]]: the name of the file
    that sanitize mode opens for writing; [None] stands for the
    [IndexError] of [fname[1]]. *)
Definition sanitized_name (FILE : str) : option str :=
  let fname := rsplit1 46 FILE in
  match nth_error fname 0, nth_error fname 1 with
  | Some stem, Some ext => Some (stem ++ lit "_sanitized." ++ ext)
  | _, _ => None
  end.

(** ** What a pattern reads *)

(** [repeats step lo hi s c s' c']: some number of [step]s, each reading
    at least one character, lead from [s] and [c] to [s'] and [c']; the
    number is at least [lo], and at most [hi] when there is a [hi]. *)
Inductive repeats (step : str -> captures -> str -> captures -> Prop)
  : nat -> option nat -> str -> captures -> str -> captures -> Prop :=
| repeats_stop hi s c : repeats step 0 hi s c s c
| repeats_step lo hi s c s1 c1 s' c' :
    (lo = 0%nat -> hi <> Some 0%nat) ->
    step s c s1 c1 ->
    (length s1 < length s)%nat ->
    repeats step (pred lo) (option_map pred hi) s1 c1 s' c' ->
    repeats step lo hi s c s' c'.

(** [matches nd r s c s' c']: the pattern [r] can read [s] down to its
    suffix [s'], turning the captures [c] into [c'].  This says which
    matches a pattern has, not which of them [re] prefers. *)
Fixpoint matches (nd : Z -> bool) (r : regex) (s : str) (c : captures)
    (s' : str) (c' : captures) {struct r} : Prop :=
  match r with
  | Chr x => s = x :: s' /\ c' = c
  | Dot => exists a, s = a :: s' /\ a <> 10 /\ c' = c
  | Digit => exists a, s = a :: s' /\ isdecimal nd a = true /\ c' = c
  | Seq r1 r2 =>
      exists s1 c1, matches nd r1 s c s1 c1 /\ matches nd r2 s1 c1 s' c'
  | Group i r1 =>
      exists c1, matches nd r1 s c s' c1 /\
                 c' = set_group i (taken s s') c1
  | Repeat r1 lo hi _ => repeats (matches nd r1) lo hi s c s' c'
  end.

(** ** Rows *)

(** Whether a row was stored with its metadata fields, rather than with
    [None] for each of them. *)
Definition understood (r : blob_row) : bool :=
  match InternalPath r with
  | Some _ => true
  | None => false
  end.

(** The lines [Metadata in blob at Offset: ... not understood] for the
    rows that were stored without fields. *)
Definition not_understood_lines (rows : list blob_row) : list line :=
  map (fun r => not_understood (Offset r))
    (filter (fun r => negb (understood r)) rows).

(** What holds of the columns of a row of [blob]. *)
Definition well_formed_row (nd : Z -> bool) (r : blob_row) : Prop :=
  ~ occurs jpeg_header (RawMetadata r) /\
  ((exists image, Thumbnail r = jpeg_header ++ image) \/
   (length (Thumbnail r) <= 1)%nat) /\
  ((InternalPath r = None /\ Unk r = None /\ OriginalFilePath r = None /\
    TimeStamp r = None /\ Extra r = None) \/
   (exists apath unk fpath ts,
      InternalPath r = Some apath /\ Unk r = Some unk /\
      OriginalFilePath r = Some fpath /\ TimeStamp r = Some ts /\
      apath <> [] /\ fpath <> [] /\
      (length unk <= 1)%nat /\ (10 <= length ts <= 16)%nat /\
      Forall (fun a => isdecimal nd a = true) (unk ++ ts) /\
      Forall (fun a => a <> 10) (apath ++ fpath) /\
      match Extra r with
      | Some xtra => xtra <> [] /\ Forall (fun a => a <> 10) xtra
      | None => True
      end)).

(** ** Encoding *)

(** [struct.pack('<I', z)] *)
Definition pack_I (z : Z) : bytes :=
  [byte_of z; byte_of (z / 2 ^ 8); byte_of (z / 2 ^ 16); byte_of (z / 2 ^ 24)].

(** [text.encode('utf-32-le')] *)
Definition encode_utf_32_le (s : str) : bytes := flat_map pack_I s.

(** The UTF-16 string [+kar] that ends the metadata written in UTF-32. *)
Definition kar : bytes := encode_utf_16_le (lit "+kar").

(** A code point that UTF-32 can encode, and one that UTF-16 encodes in
    one code unit. *)
Definition scalar_value (c : Z) : Prop :=
  0 <= c < 0x110000 /\ is_surrogate c = false.

Definition bmp_scalar_value (c : Z) : Prop :=
  0 <= c < 0x10000 /\ is_surrogate c = false.

(** * Properties *)

(** ** Slices and [find] *)

Lemma slice_app {A : Type} (k : Z) (l : list A) :
  Py.slice_to k l ++ Py.slice_from k l = l.
Proof. apply firstn_skipn. Qed.

Lemma slice_from_length {A : Type} (k : Z) (l : list A) :
  0 <= k ->
  length (Py.slice_from k l) = (length l - Z.to_nat k)%nat.
Proof.
  intros Hk. unfold Py.slice_from, Py.slice_index.
  destruct (k <? 0) eqn:E; [apply Z.ltb_lt in E; lia|].
  rewrite length_skipn. lia.
Qed.

Lemma skipn_firstn_all {A : Type} (n : nat) (l : list A) :
  (length l <= n)%nat -> firstn n l = l.
Proof. intros H. now apply firstn_all2. Qed.

Lemma startswith_iff (sub data : bytes) :
  Py.startswith sub data = true <-> exists post, data = sub ++ post.
Proof.
  revert data. induction sub as [|x sub IH]; intros data; simpl.
  - split; [intros _; now exists data | reflexivity].
  - destruct data as [|y data].
    + split; [discriminate | intros [post H]; discriminate].
    + rewrite andb_true_iff, IH. split.
      * intros [Hxy [post ->]]. exists post.
        destruct (Byte.byte_dec_bl _ _ Hxy). reflexivity.
      * intros [post H]. injection H as -> ->. split; [|now exists post].
        apply Byte.byte_dec_lb. reflexivity.
Qed.

Lemma find_from_bounds (sub data : bytes) (i : Z) :
  Py.find_from sub data i = -1 \/
  i <= Py.find_from sub data i <= i + Z.of_nat (length data).
Proof.
  revert i. induction data as [|y data IH]; intros i; simpl.
  - destruct (Py.startswith sub []); [right; lia | now left].
  - destruct (Py.startswith sub (y :: data)); [right; lia|].
    destruct (IH (i + 1)) as [H | H]; [now left | right; lia].
Qed.

Lemma find_from_absent (sub data : bytes) (i : Z) :
  ~ occurs sub data -> Py.find_from sub data i = -1.
Proof.
  revert i. induction data as [|y data IH]; intros i Hno; simpl.
  - destruct (Py.startswith sub []) eqn:E; [|reflexivity].
    apply startswith_iff in E. destruct E as [post E].
    exfalso. apply Hno. exists [], post. exact E.
  - destruct (Py.startswith sub (y :: data)) eqn:E.
    + apply startswith_iff in E. destruct E as [post E].
      exfalso. apply Hno. exists [], post. exact E.
    + apply IH. intros (pre & post & H). apply Hno.
      exists (y :: pre), post. rewrite H. reflexivity.
Qed.

Lemma find_from_present (sub data : bytes) (i : Z) :
  0 <= i -> Py.find_from sub data i = -1 -> ~ occurs sub data.
Proof.
  revert i. induction data as [|y data IH]; intros i Hi; simpl.
  - destruct (Py.startswith sub []) eqn:E; [lia|].
    intros _ (pre & post & H). destruct pre; [|discriminate].
    assert (Py.startswith sub [] = true) as E'
      by (apply startswith_iff; now exists post).
    congruence.
  - destruct (Py.startswith sub (y :: data)) eqn:E; [lia|].
    intros Hf (pre & post & H). destruct pre as [|z pre].
    + assert (Py.startswith sub (y :: data) = true) as E'
        by (apply startswith_iff; now exists post).
      congruence.
    + injection H as _ H. apply (IH (i + 1)); [lia | exact Hf |].
      now exists pre, post.
Qed.

(** [find] answers [-1] exactly when the marker does not occur. *)
Lemma find_absent_iff (sub data : bytes) :
  Py.find sub data = -1 <-> ~ occurs sub data.
Proof.
  split; [apply find_from_present; lia | apply find_from_absent].
Qed.

Lemma find_prefix (sub rest : bytes) : Py.find sub (sub ++ rest) = 0.
Proof.
  unfold Py.find. destruct (sub ++ rest) eqn:E; simpl.
  - destruct sub; [reflexivity | discriminate].
  - rewrite <- E.
    replace (Py.startswith sub (sub ++ rest)) with true; [reflexivity|].
    symmetry. apply startswith_iff. now exists rest.
Qed.

Lemma segment_app (data : bytes) :
  fst (segment data) ++ snd (segment data) = data.
Proof. apply slice_app. Qed.

Lemma zeroed_length (thumbnail : bytes) :
  length (zeroed thumbnail) = (3 + (length thumbnail - 4))%nat.
Proof.
  unfold zeroed, Py.zeros.
  rewrite length_app, repeat_length, slice_from_length by lia.
  reflexivity.
Qed.

(** What the sanitized file gets for a record is one byte shorter than
    the record as soon as the thumbnail has four bytes. *)
Lemma sanitized_record_length (h data : bytes) :
  length h = 20%nat ->
  (4 <= length (snd (segment data)))%nat ->
  S (length (h ++ fst (segment data) ++ zeroed (snd (segment data)))) =
  (20 + length data)%nat.
Proof.
  intros Hh Ht. rewrite <- (segment_app data) at 3.
  rewrite !length_app, zeroed_length, Hh. lia.
Qed.

(** ** Decoding *)

Lemma emit_total (c : Z) (r : option str) : r <> None -> emit c r <> None.
Proof. destruct r; simpl; congruence. Qed.

Lemma decode_utf_32_le_ignore (data : bytes) :
  decode_utf_32_le ignore data <> None.
Proof.
  assert (forall n data, (length data <= n)%nat ->
            decode_utf_32_le ignore data <> None) as H.
  { induction n as [|n IH]; intros [|b0 [|b1 [|b2 [|b3 rest]]]] Hn;
      simpl in *; try discriminate; try lia.
    destruct (_ || _); [|apply emit_total]; apply IH; lia. }
  apply (H (length data)). lia.
Qed.

Lemma decode_utf_16_le_ignore (data : bytes) :
  decode_utf_16_le ignore data <> None.
Proof.
  assert (forall n data, (length data <= n)%nat ->
            decode_utf_16_le ignore data <> None) as H.
  { induction n as [|n IH]; intros [|b0 [|b1 rest]] Hn;
      simpl in *; try discriminate; try lia.
    destruct (is_high_surrogate _).
    - destruct rest as [|c0 [|c1 rest']]; try discriminate.
      destruct (is_low_surrogate _); [apply emit_total|];
        apply IH; simpl in *; lia.
    - destruct (is_low_surrogate _); [|apply emit_total]; apply IH; lia. }
  apply (H (length data)). lia.
Qed.

(** Under [errors='ignore'] decoding never raises. *)
Lemma decode_ignore_total (c : codec) (data : bytes) :
  exists text, decode c ignore data = Some text.
Proof.
  destruct (decode c ignore data) eqn:E; [eauto|]. exfalso. revert E.
  destruct c; [apply decode_utf_32_le_ignore | apply decode_utf_16_le_ignore].
Qed.

(** ** The encoding detector *)

Lemma detect_codec_detected (data : bytes) (w : world) :
  detect_codec data default_codecs w =
  match detected data with
  | Some r => (Ok r, w)
  | None => (SysExit 1, add_line (codec_detection_error data) w)
  end.
Proof.
  unfold detected, default_codecs, detect_codec.
  destruct (decode utf_32_le strict data); [reflexivity|].
  destruct (decode utf_16_le strict data); reflexivity.
Qed.

(** ** One iteration of the loop *)

Lemma unpack_length (h : bytes) x :
  unpack_8s3I h = Some x -> length h = 20%nat.
Proof.
  unfold unpack_8s3I.
  do 20 (destruct h as [|? h]; [discriminate|]).
  destruct h; [reflexivity | discriminate].
Qed.

Lemma unpack_short (h : bytes) :
  (length h < 20)%nat -> unpack_8s3I h = None.
Proof.
  intros Hlen. destruct (unpack_8s3I h) eqn:E; [|reflexivity].
  apply unpack_length in E. lia.
Qed.

Section Loop.

Variable unicode_nd : Z -> bool.
Variable file : bytes.

Lemma header_at_length (p : nat) :
  length (header_at file p) = Nat.min 20 (fsize file - p).
Proof. unfold header_at, fsize. now rewrite length_firstn, length_skipn. Qed.

Lemma payload_at_length (p : nat) (n : Z) :
  length (payload_at file p n) = Nat.min (Z.to_nat n) (fsize file - (p + 20)).
Proof. unfold payload_at, fsize. now rewrite length_firstn, length_skipn. Qed.

Lemma iteration_break (a : args) (w : world) :
  pos w = fsize file -> iteration unicode_nd a file w = (Ok Break, w).
Proof.
  intros H. unfold iteration, bind, f_tell.
  apply Nat.eqb_eq in H. rewrite H. reflexivity.
Qed.

Lemma iteration_struct_error (a : args) (w : world) :
  pos w <> fsize file ->
  unpack_8s3I (header_at file (pos w)) = None ->
  iteration unicode_nd a file w =
  (Uncaught struct_error, set_pos (pos w + length (header_at file (pos w))) w).
Proof.
  intros Hp Hu. unfold iteration, bind, f_tell, f_read.
  apply Nat.eqb_neq in Hp. rewrite Hp.
  change (Z.to_nat 20) with 20%nat. fold (header_at file (pos w)). rewrite Hu. reflexivity.
Qed.

Lemma iteration_record (a : args) (w : world) key chksum recoffset payloadlen :
  pos w <> fsize file ->
  unpack_8s3I (header_at file (pos w)) = Some (key, chksum, recoffset, payloadlen) ->
  iteration unicode_nd a file w =
  process unicode_nd a (pos w) (header_at file (pos w)) key chksum recoffset
    payloadlen (payload_at file (pos w) payloadlen)
    (set_pos (pos w + 20 + length (payload_at file (pos w) payloadlen)) w).
Proof.
  intros Hp Hu. unfold iteration, bind, f_tell, f_read.
  apply Nat.eqb_neq in Hp. rewrite Hp.
  change (Z.to_nat 20) with 20%nat. fold (header_at file (pos w)). rewrite Hu.
  pose proof (unpack_length _ _ Hu) as Hlen.
  cbn [pos set_pos]. rewrite Hlen.
  fold (payload_at file (pos w) payloadlen). reflexivity.
Qed.

(** In sanitize mode a record is copied with its thumbnail zeroed. *)
Lemma process_sanitize (a : args) offset h key chksum recoffset payloadlen
    data (w : world) :
  sanitize a = true ->
  process unicode_nd a offset h key chksum recoffset payloadlen data w =
  (Ok Continue,
   add_o (zeroed (snd (segment data)))
     (add_o (fst (segment data)) (add_o h w))).
Proof.
  intros Hs. unfold process. destruct (segment data) as [metadata thumbnail].
  rewrite Hs. reflexivity.
Qed.

(** In database mode a record ends the process when no codec is detected
    and is stored otherwise, with a message when the pattern has no
    match. *)
Lemma process_database (d : bool) offset h key chksum recoffset payloadlen
    data (w : world) :
  let metadata := fst (segment data) in
  process unicode_nd (parse_args d false) offset h key chksum recoffset
    payloadlen data w =
  match detected (Py.slice_to 4 metadata) with
  | None =>
      (SysExit 1,
       add_line (codec_detection_error (Py.slice_to 4 metadata)) w)
  | Some (codec, _) =>
      match decode codec ignore metadata with
      | None => (Uncaught UnicodeDecodeError, w)
      | Some text =>
          let store m w :=
            add_blob_header
              (stored_header offset h key chksum recoffset payloadlen)
              (add_blob (stored_blob offset m data) w) in
          match findall unicode_nd meta_re text with
          | (apath, unk, fpath, ts, xtra) :: _ =>
              (Ok Continue,
               store (Some apath, Some unk, Some fpath, Some ts, Some xtra) w)
          | [] =>
              (Ok Continue,
               store (None, None, None, None, None)
                 (add_line (not_understood (Z.of_nat offset)) w))
          end
      end
  end.
Proof.
  unfold process, stored_blob, stored_header.
  destruct (segment data) as [metadata thumbnail]. cbn [fst snd].
  assert (database (parse_args d false) = true) as Hd by (now destruct d).
  cbn [sanitize parse_args]. unfold bind at 1.
  rewrite detect_codec_detected.
  destruct (detected (Py.slice_to 4 metadata)) as [[codec cp_len]|];
    [|reflexivity].
  destruct (decode codec ignore metadata) as [text|]; [|reflexivity].
  first_match unicode_nd text;
    unfold bind; cbn [print ret]; rewrite Hd; reflexivity.
Qed.

Lemma process_pos (a : args) offset h key chksum recoffset payloadlen data
    (w : world) :
  pos (snd (process unicode_nd a offset h key chksum recoffset payloadlen
              data w)) = pos w.
Proof.
  unfold process. destruct (segment data) as [metadata thumbnail].
  destruct (sanitize a); [reflexivity|].
  unfold bind at 1. rewrite detect_codec_detected.
  destruct (detected _) as [[codec cp_len]|]; [|reflexivity].
  destruct (decode codec ignore metadata) as [text|]; [|reflexivity].
  first_match unicode_nd text;
    unfold bind; cbn [print ret]; destruct (database a); reflexivity.
Qed.

(** An iteration never moves the read position back or past the end of
    the file, and one that continues has moved it by 20 bytes or more. *)
Lemma iteration_pos (a : args) (w : world) :
  (pos w <= fsize file)%nat ->
  let '(r, w') := iteration unicode_nd a file w in
  (pos w' <= fsize file)%nat /\
  (r = Ok Continue -> pos w + 20 <= pos w')%nat.
Proof.
  intros Hle.
  destruct (Nat.eq_dec (pos w) (fsize file)) as [He | Hne].
  - rewrite (iteration_break a w He). split; [lia | discriminate].
  - destruct (unpack_8s3I (header_at file (pos w)))
      as [[[[key chksum] recoffset] payloadlen]|] eqn:Hu.
    + rewrite (iteration_record a w _ _ _ _ Hne Hu).
      pose proof (unpack_length _ _ Hu) as Hlen.
      rewrite header_at_length in Hlen.
      match goal with |- context [process ?n ?a ?o ?h ?k ?c ?r ?l ?d ?w0] =>
        pose proof (process_pos a o h k c r l d w0) as Hp;
        destruct (process n a o h k c r l d w0) as [r' w'] end.
      cbn [snd pos set_pos] in Hp. rewrite Hp, payload_at_length. lia.
    + rewrite (iteration_struct_error a w Hne Hu).
      cbn [pos set_pos]. rewrite header_at_length.
      split; [lia | discriminate].
Qed.

Lemma while_true_returns (a : args) (fuel : nat) (w : world) :
  (pos w <= fsize file)%nat ->
  (fsize file - pos w < fuel)%nat ->
  exists r, while_true fuel (iteration unicode_nd a file) w = Some r.
Proof.
  revert w. induction fuel as [|fuel IH]; intros w Hle Hfuel; [lia|].
  cbn [while_true]. pose proof (iteration_pos a w Hle) as H.
  destruct (iteration unicode_nd a file w) as [[[|]|code|e] w'];
    destruct H as [H1 H2]; eauto.
  apply IH; [exact H1|]. specialize (H2 eq_refl). lia.
Qed.

Lemma while_true_S (body : M flow) (fuel : nat) (w : world) :
  while_true (S fuel) body w =
  match body w with
  | (Ok Continue, w') => while_true fuel body w'
  | (Ok Break, w') => Some (Ok tt, w')
  | (SysExit code, w') => Some (SysExit code, w')
  | (Uncaught e, w') => Some (Uncaught e, w')
  end.
Proof. reflexivity. Qed.

(** More fuel does not change what the loop returns. *)
Lemma while_true_fuel (body : M flow) (fuel fuel' : nat) (w : world) r :
  while_true fuel body w = Some r ->
  (fuel <= fuel')%nat ->
  while_true fuel' body w = Some r.
Proof.
  revert fuel' w. induction fuel as [|fuel IH]; intros fuel' w H Hle;
    [discriminate|].
  destruct fuel' as [|fuel']; [lia|]. cbn [while_true] in *.
  destruct (body w) as [[[|]|code|e] w']; try exact H.
  apply IH; [exact H | lia].
Qed.

(** [main] always returns: the fuel it gives the loop is enough. *)
Lemma main_returns (a : args) :
  exists r w, main unicode_nd a file = Some (r, w).
Proof.
  unfold main.
  destruct (before_loop a file start) as [[[]|code|e] w] eqn:Hb; eauto.
  assert (pos w <= fsize file)%nat as Hle.
  { revert Hb. unfold before_loop, bind, f_read.
    assert (pos (set_pos (pos start + length (firstn (Z.to_nat 4)
              (skipn (pos start) file))) start) <= fsize file)%nat as Hp.
    { cbn [pos set_pos start]. rewrite length_firstn. unfold fsize.
      cbn [skipn]. lia. }
    destruct (negb _); [discriminate|].
    destruct (sanitize a); intros [= <-]; exact Hp. }
  destruct (while_true_returns a (S (fsize file)) w Hle) as [[r w'] Hr];
    [lia|].
  rewrite Hr. destruct r as [[]|code|e]; eauto.
  destruct (after_loop a w') as [r' w'']. eauto.
Qed.

End Loop.

(** ** Files whose records tile them *)

Lemma records_size_cons (r : bytes * bytes) records :
  records_size (r :: records) =
  (20 + length (snd r) + records_size records)%nat.
Proof. reflexivity. Qed.

Lemma tiles_size (body : bytes) records :
  tiles body records -> length body = records_size records.
Proof.
  induction 1 as [|h key chksum recoffset payloadlen payload body records
                   Hu Hl Ht IH]; [reflexivity|].
  apply unpack_length in Hu.
  rewrite !length_app, Hu, IH, records_size_cons. cbn [snd]. lia.
Qed.

Lemma tiles_count (body : bytes) records :
  tiles body records -> (length records <= length body)%nat.
Proof.
  intros H. rewrite (tiles_size _ _ H). clear H.
  induction records as [|r records IH]; [cbn; lia|].
  rewrite records_size_cons. cbn [length]. lia.
Qed.

Lemma tiles_headers (body : bytes) records :
  tiles body records -> Forall (fun r => length (fst r) = 20%nat) records.
Proof.
  induction 1 as [|h key chksum recoffset payloadlen payload body records
                   Hu Hl Ht IH]; constructor; [|exact IH].
  exact (unpack_length _ _ Hu).
Qed.

Lemma world_ext (w w' : world) :
  pos w = pos w' -> stdout w = stdout w' -> o w = o w' ->
  o_closed w = o_closed w' -> blob w = blob w' ->
  blob_header w = blob_header w' -> committed w = committed w' ->
  w = w'.
Proof.
  destruct w, w'. cbn. intros. subst. reflexivity.
Qed.

Section Tiled.

Variable unicode_nd : Z -> bool.

(** The reads of an iteration at a record of a tiled file. *)
Lemma reads_at_record (pre h payload body : bytes) x :
  unpack_8s3I h = Some x ->
  header_at (pre ++ h ++ payload ++ body) (length pre) = h /\
  payload_at (pre ++ h ++ payload ++ body) (length pre)
    (Z.of_nat (length payload)) = payload.
Proof.
  intros Hu. apply unpack_length in Hu. unfold header_at, payload_at. split.
  - rewrite skipn_app, skipn_all, Nat.sub_diag. cbn [skipn app].
    rewrite <- Hu. rewrite firstn_app, firstn_all, Nat.sub_diag.
    cbn [firstn]. apply app_nil_r.
  - replace (pre ++ h ++ payload ++ body)
      with ((pre ++ h) ++ payload ++ body) by (now rewrite <- app_assoc).
    replace (length pre + 20)%nat with (length (pre ++ h))
      by (rewrite length_app; lia).
    rewrite skipn_app, skipn_all, Nat.sub_diag. cbn [skipn app].
    rewrite Nat2Z.id, firstn_app, firstn_all, Nat.sub_diag.
    cbn [firstn]. apply app_nil_r.
Qed.


(** In sanitize mode the loop goes through all the records of a tiled
    file and ends at its end. *)
Lemma sanitize_tiles (body : bytes) records :
  tiles body records ->
  forall pre (w : world) fuel,
    pos w = length pre ->
    while_true (S (length records + fuel))
      (iteration unicode_nd sanitize_run (pre ++ body)) w =
    Some (Ok tt, add_o (sanitized records) (set_pos (length (pre ++ body)) w)).
Proof.
  induction 1 as [|h key chksum recoffset payloadlen payload body records
                   Hu Hl Ht IH]; intros pre w fuel Hp.
  - cbn [while_true]. rewrite iteration_break.
    + f_equal. f_equal. apply world_ext; cbn; auto.
      * now rewrite Hp, app_nil_r.
      * now rewrite app_nil_r.
    + unfold fsize. now rewrite Hp, app_nil_r.
  - cbn [length Nat.add]. rewrite while_true_S.
    destruct (reads_at_record pre h payload body _ Hu) as [Hh Hd].
    assert (pos w <> fsize (pre ++ h ++ payload ++ body)) as Hne.
    { unfold fsize. rewrite Hp, !length_app, (unpack_length _ _ Hu). lia. }
    rewrite (iteration_record unicode_nd _ sanitize_run w key chksum recoffset
               payloadlen Hne) by (rewrite Hp, Hh; exact Hu).
    rewrite process_sanitize by reflexivity.
    rewrite Hp, Hh, Hl, Hd.
    replace (pre ++ h ++ payload ++ body)
      with ((pre ++ h ++ payload) ++ body)
      by (now rewrite <- !app_assoc).
    rewrite IH.
    + f_equal. f_equal. apply world_ext; cbn; auto.
      now rewrite <- !app_assoc.
    + cbn. rewrite !length_app, (unpack_length _ _ Hu). lia.
Qed.


End Tiled.

Section TiledMain.

Variable unicode_nd : Z -> bool.



Lemma before_loop_magic (a : args) (body : bytes) :
  before_loop a (magic ++ body) start =
  (Ok tt,
   if sanitize a then add_o magic (set_pos 4 start) else set_pos 4 start).
Proof.
  unfold before_loop, bind, f_read. cbn. destruct (sanitize a); reflexivity.
Qed.

Lemma main_sanitize_tiles (body : bytes) records :
  tiles body records ->
  main unicode_nd sanitize_run (magic ++ body) =
  Some (Ok tt,
        set_o_closed
          (add_o (sanitized records)
             (add_o magic (set_pos (length (magic ++ body)) start)))).
Proof.
  intros Ht. unfold main. rewrite before_loop_magic. cbn [sanitize sanitize_run parse_args].
  pose proof (sanitize_tiles unicode_nd body records Ht magic
                (add_o magic (set_pos 4 start)) 0 eq_refl) as H.
  apply while_true_fuel with (fuel' := S (fsize (magic ++ body))) in H.
  - rewrite H. reflexivity.
  - pose proof (tiles_count _ _ Ht). unfold fsize. rewrite length_app. lia.
Qed.



End TiledMain.

Lemma scenario_tiles :
  tiles (header_of x55 ++ scenario_payload ++ [])
    [(header_of x55, scenario_payload)].
Proof.
  apply (tiles_cons _ [x41; x42; x43; x44; x45; x46; x47; x48] 1 0 85);
    [reflexivity | reflexivity | apply tiles_nil].
Qed.

(** ** The length of the sanitized file *)

Lemma sanitized_length records :
  Forall (fun r => length (fst r) = 20%nat /\
                   (4 <= length (snd (segment (snd r))))%nat) records ->
  (length (sanitized records) + length records)%nat = records_size records.
Proof.
  induction 1 as [|[h payload] records [Hh Ht] _ IH]; [reflexivity|].
  cbn [sanitized flat_map fst snd length] in *.
  fold (sanitized records). rewrite records_size_cons. cbn [snd].
  rewrite length_app.
  pose proof (sanitized_record_length h payload Hh Ht). lia.
Qed.

(** For a tiled file whose thumbnails have four bytes or more, the
    sanitized file is shorter than the file by one byte for each record. *)
Lemma sanitized_file_length (nd : Z -> bool) (body : bytes) records :
  tiles body records ->
  Forall (fun r => (4 <= length (snd (segment (snd r))))%nat) records ->
  match main nd sanitize_run (magic ++ body) with
  | Some (Ok _, w) =>
      (length (o w) + length records)%nat = length (magic ++ body)
  | _ => False
  end.
Proof.
  intros Ht H4. rewrite (main_sanitize_tiles nd body records Ht).
  cbn [o set_o_closed add_o set_pos start app].
  rewrite !length_app, (tiles_size _ _ Ht).
  rewrite <- (sanitized_length records); [unfold bytes in *; lia|].
  pose proof (tiles_headers _ _ Ht) as Hh.
  rewrite Forall_forall in *. intros r Hr. split; auto.
Qed.


(** ** The third group of [meta_re] *)

Lemma advance_refl i s c : advance i s c s c.
Proof. split; [lia | reflexivity]. Qed.

Lemma advance_trans i s c s1 c1 s2 c2 :
  advance i s c s1 c1 -> advance i s1 c1 s2 c2 -> advance i s c s2 c2.
Proof. intros [H1 H2] [H3 H4]. split; [lia | congruence]. Qed.

Lemma loop_calls i body greedy n :
  calls i body ->
  forall lo hi, calls i (loop body greedy n lo hi).
Proof.
  intros Hb. induction n as [|n IH]; intros lo hi s c k res H.
  - cbn in H. destruct lo.
    + destruct hi as [[|h]|]; [| destruct greedy; cbn in H ..];
        try discriminate; try (exists s, c; split;
          [first [exact H | now destruct (k s c)] | apply advance_refl]).
    + discriminate.
  - cbn [loop] in H.
    assert (forall res,
      body s c (fun s' c' =>
        if (length s' <? length s)%nat
        then loop body greedy n (pred lo) (option_map pred hi) s' c' k
        else None) = Some res ->
      exists s' c', k s' c' = Some res /\ advance i s c s' c') as Hagain.
    { intros res' H'. apply Hb in H'. destruct H' as (s1 & c1 & H1 & Ha1).
      destruct (length s1 <? length s)%nat; [|discriminate].
      apply IH in H1. destruct H1 as (s2 & c2 & H2 & Ha2).
      exists s2, c2. split; [exact H2 | eapply advance_trans; eassumption]. }
    destruct lo; [|now apply Hagain].
    assert (forall res, k s c = Some res ->
      exists s' c', k s' c' = Some res /\ advance i s c s' c') as Hstop
      by (intros res' H'; exists s, c; split;
          [exact H' | apply advance_refl]).
    destruct hi as [[|h]|]; [now apply Hstop | |];
      (destruct greedy; unfold orelse in H;
       [ destruct (body s c _) eqn:E;
           [injection H as <-; now apply Hagain | now apply Hstop]
       | destruct (k s c) eqn:E;
           [injection H as <-; now apply Hstop | now apply Hagain] ]).
Qed.

Lemma run_calls (nd : Z -> bool) i r :
  mentions i r = false -> calls i (run nd r).
Proof.
  induction r as [x| | |r1 IH1 r2 IH2|j r1 IH1|r1 IH1 lo hi greedy];
    cbn [mentions]; intros Hm s c k res H; cbn [run] in H.
  - destruct s as [|y s]; [discriminate|].
    destruct (y =? x); [|discriminate].
    exists s, c. split; [exact H | split; [cbn; lia | reflexivity]].
  - destruct s as [|y s]; [discriminate|].
    destruct (y =? 10); [discriminate|].
    exists s, c. split; [exact H | split; [cbn; lia | reflexivity]].
  - destruct s as [|y s]; [discriminate|].
    destruct (isdecimal nd y); [|discriminate].
    exists s, c. split; [exact H | split; [cbn; lia | reflexivity]].
  - apply orb_false_iff in Hm. destruct Hm as [Hm1 Hm2].
    apply (IH1 Hm1) in H. destruct H as (s1 & c1 & H1 & Ha1).
    apply (IH2 Hm2) in H1. destruct H1 as (s2 & c2 & H2 & Ha2).
    exists s2, c2. split; [exact H2 | eapply advance_trans; eassumption].
  - apply orb_false_iff in Hm. destruct Hm as [Hij Hm1].
    apply (IH1 Hm1) in H. destruct H as (s1 & c1 & H1 & [Hl Hg]).
    exists s1, (set_group j (taken s s1) c1). split; [exact H1|].
    split; [exact Hl|]. cbn [group set_group]. rewrite Hij. exact Hg.
  - eapply loop_calls; [apply IH1; exact Hm | exact H].
Qed.

(** [.+?] reads at least one character and captures nothing. *)
Lemma lazy_plus_dot_reads (nd : Z -> bool) s c k res :
  run nd (lazy_plus Dot) s c k = Some res ->
  exists s', k s' c = Some res /\ (length s' < length s)%nat.
Proof.
  cbn [run lazy_plus].
  assert (forall n lo s c,
    loop (run nd Dot) false n lo None s c k = Some res ->
    (0 < lo)%nat \/ (0 < length s)%nat ->
    exists s', k s' c = Some res /\
      (lo = 0%nat -> length s' <= length s)%nat /\
      (0 < lo -> length s' < length s)%nat) as H.
  { clear s c. induction n as [|n IH]; intros lo s c H Hpos.
    - cbn in H. destruct lo; [|discriminate].
      unfold orelse in H. destruct (k s c) eqn:E; [|discriminate].
      exists s. split; [congruence | split; lia].
    - cbn [loop] in H.
      assert (forall res',
        run nd Dot s c (fun s' c' =>
          if (length s' <? length s)%nat
          then loop (run nd Dot) false n (pred lo) (option_map pred None)
                 s' c' k
          else None) = Some res' ->
        res' = res ->
        exists s', k s' c = Some res /\ (length s' < length s)%nat) as Hagain.
      { intros res' H' ->. cbn [run] in H'.
        destruct s as [|y s]; [discriminate|].
        destruct (y =? 10); [discriminate|].
        replace (length s <? length (y :: s))%nat with true in H'
          by (symmetry; apply Nat.ltb_lt; cbn; lia).
        cbn [option_map] in H'.
        destruct (pred lo) eqn:Elo.
        - destruct n as [|n'].
          + cbn in H'. unfold orelse in H'.
            destruct (k s c) eqn:E; [|discriminate].
            exists s. split; [congruence | cbn; lia].
          + destruct s as [|z s'].
            * cbn [loop] in H'. unfold orelse in H'.
              destruct (k [] c) eqn:E; [|discriminate].
              exists []. split; [congruence | cbn; lia].
            * apply IH in H'; [|right; cbn; lia].
              destruct H' as (s2 & H2 & Hl & _).
              exists s2. split; [exact H2 | cbn in *; lia].
        - apply IH in H'; [|left; lia].
          destruct H' as (s2 & H2 & _ & Hl).
          exists s2. split; [exact H2 | cbn in *; lia]. }
      destruct lo.
      + unfold orelse in H. destruct (k s c) eqn:E.
        * exists s. split; [congruence | split; lia].
        * destruct (Hagain res H eq_refl) as (s' & H1 & H2).
          exists s'. split; [exact H1 | split; lia].
      + destruct (Hagain res H eq_refl) as (s' & H1 & H2).
        exists s'. split; [exact H1 | split; lia]. }
  intros Hr. apply H in Hr; [|left; lia].
  destruct Hr as (s' & H1 & _ & H2). exists s'. split; [exact H1 | lia].
Qed.

Lemma run_seq (nd : Z -> bool) r1 r2 s c k :
  run nd (r1 >> r2) s c k = run nd r1 s c (fun s' c' => run nd r2 s' c' k).
Proof. reflexivity. Qed.

Lemma run_group (nd : Z -> bool) i r s c k :
  run nd (Group i r) s c k =
  run nd r s c (fun s' c' => k s' (set_group i (taken s s') c')).
Proof. reflexivity. Qed.

Lemma taken_nonempty (s s' : str) :
  (length s' < length s)%nat -> taken s s' <> [].
Proof.
  intros H E. apply (f_equal (@length Z)) in E.
  unfold taken in E. rewrite length_firstn in E. cbn in E. lia.
Qed.

(** In every match of [meta_re] the third group has taken part and holds
    at least one character. *)
Lemma meta_re_third_group (nd : Z -> bool) s rest c :
  match_at nd meta_re s = Some (rest, c) ->
  exists v, group 3 c = Some v /\ v <> [].
Proof.
  unfold match_at, meta_re. intros H.
  rewrite run_seq in H.
  apply (run_calls nd 3 (Group 1 (lazy_plus Dot)) eq_refl) in H.
  destruct H as (s1 & c1 & H & _). rewrite run_seq in H.
  apply (run_calls nd 3 (Chr 43) eq_refl) in H.
  destruct H as (s2 & c2 & H & _). rewrite run_seq in H.
  apply (run_calls nd 3 (Group 2 (opt Digit)) eq_refl) in H.
  destruct H as (s3 & c3 & H & _). rewrite run_seq in H.
  apply (run_calls nd 3 (opt (Chr 43)) eq_refl) in H.
  destruct H as (s4 & c4 & H & _). rewrite run_seq, run_group in H.
  apply lazy_plus_dot_reads in H. destruct H as (s5 & H & Hlt).
  match type of H with run nd ?rest_re _ _ _ = _ =>
    apply (run_calls nd 3 rest_re eq_refl) in H end.
  destruct H as (s6 & c6 & H & _ & Hg).
  injection H as _ <-. exists (taken s4 s5).
  split; [exact Hg | now apply taken_nonempty].
Qed.

Lemma findall_from_head (nd : Z -> bool) fuel r s m ms :
  findall_from nd fuel r s = m :: ms ->
  exists s' rest c, match_at nd r s' = Some (rest, c) /\ m = groups5 c.
Proof.
  revert s. induction fuel as [|fuel IH]; intros s H; [discriminate|].
  cbn [findall_from] in H.
  destruct (match_at nd r s) as [[rest c]|] eqn:E.
  - injection H as <- _. eauto.
  - destruct s as [|y s]; [discriminate | eauto].
Qed.

(** Whatever the text, the path that [findall] reports first is not the
    empty string: the pattern has no match in which the third field is
    left out. *)
Lemma parsed_path_is_never_empty (nd : Z -> bool) text apath unk fpath ts
    xtra ms :
  findall nd meta_re text = (apath, unk, fpath, ts, xtra) :: ms ->
  fpath <> [].
Proof.
  intros H. apply findall_from_head in H.
  destruct H as (s' & rest & c & Hm & Hg).
  apply meta_re_third_group in Hm. destruct Hm as (v & Hv & Hne).
  unfold groups5, group_text in Hg. rewrite Hv in Hg.
  injection Hg as _ _ -> _ _. exact Hne.
Qed.

(** * The claims *)

(** C1, where it fails.  For a record the sanitized file gets the header
    and the metadata as they were read and the marker, followed by zero
    bytes for [thumbnail[4:]], which leaves out four bytes where the
    marker has three.  On the scenario's file, of 109 bytes, that makes
    nine zero bytes for the ten bytes that follow the marker, and a
    sanitized file of 108 bytes; and whenever the records tile the file
    and each thumbnail has four bytes or more, the sanitized file is
    shorter than the file by one byte for each record. *)
Theorem sanitized_scenario_is_shorter :
  forall unicode_nd,
    main unicode_nd sanitize_run scenario_file =
    Some (Ok tt,
          {| pos := 109; stdout := [];
             o := magic ++ header_of x55 ++
                  encode_utf_16_le
                    (lit "thumb1+0+/sdcard/img.jpg+1600000000+") ++
                  jpeg_header ++ Py.zeros 9;
             o_closed := true; blob := []; blob_header := [];
             committed := false |})
    /\ length scenario_file = 109%nat
    /\ length (magic ++ header_of x55 ++
               encode_utf_16_le
                 (lit "thumb1+0+/sdcard/img.jpg+1600000000+") ++
               jpeg_header ++ Py.zeros 9) = 108%nat
    /\ forall body records,
         tiles body records ->
         Forall (fun r => (4 <= length (snd (segment (snd r))))%nat) records ->
         match main unicode_nd sanitize_run (magic ++ body) with
         | Some (Ok _, w) =>
             (length (o w) + length records)%nat = length (magic ++ body)
         | _ => False
         end.
Proof.
  intros nd. split; [vm_compute; reflexivity|].
  split; [vm_compute; reflexivity|].
  split; [vm_compute; reflexivity|].
  intros body records. apply sanitized_file_length.
Qed.

Lemma sanitized_scenario_is_shorter_witness :
  match main ascii_only sanitize_run scenario_file with
  | Some (Ok _, w) => (length (o w) + 1)%nat = length scenario_file
  | _ => False
  end.
Proof.
  refine (proj2 (proj2 (proj2 (sanitized_scenario_is_shorter ascii_only)))
            _ [(header_of x55, scenario_payload)] scenario_tiles _).
  repeat constructor.
Defined.

(** C2, as stated, fails on [markerless_file].  The marker does not occur
    in the payload; [find] answers [-1], nothing is raised and nothing is
    printed, and the record is stored with the last byte of the payload as
    its thumbnail, not with the whole payload. *)
Lemma markerless_payload_counterexample :
  ~ occurs jpeg_header markerless_payload /\
  snd (segment markerless_payload) = [xd8] /\
  snd (segment markerless_payload) <> markerless_payload /\
  forall unicode_nd,
    main unicode_nd database_run markerless_file =
    Some (Ok tt,
          {| pos := 98; stdout := []; o := []; o_closed := false;
             blob :=
               [{| Offset := 4; InternalPath := Some (lit "thumb1");
                   Unk := Some (lit "0");
                   OriginalFilePath := Some (lit "/sdcard/img.jpg");
                   TimeStamp := Some (lit "1600000000"); Extra := None;
                   Thumbnail := [xd8];
                   RawMetadata :=
                     encode_utf_16_le
                       (lit "thumb1+0+/sdcard/img.jpg+1600000000+") ++ [xff]
                |}];
             blob_header :=
               [{| HOffset := 4;
                   Key := [x41; x42; x43; x44; x45; x46; x47; x48];
                   Checksum := 1; BlobOffset := 0; BlobLength := 74;
                   RawBlobHeader := header_of x4a |}];
             committed := true |}).
Proof.
  split; [apply find_absent_iff; vm_compute; reflexivity|].
  split; [vm_compute; reflexivity|].
  split; [vm_compute; discriminate|].
  intros nd. vm_compute. reflexivity.
Qed.

(** C2, amended.  For a payload in which the marker does not occur the
    split does not fail and reports nothing: [find] answers [-1] and
    metadata and thumbnail are the two slices of the payload at that
    index, which together make up the payload.  The record is then
    processed like any other.  In sanitize mode it is written out and the
    loop goes on to the next record, nothing being printed.  In database
    mode it is stored and the loop goes on to the next record, the only
    line that may be printed being the one for metadata that is not
    understood, unless the encoding detector gives up on the metadata
    sample, which ends the process. *)
Theorem markerless_payload_is_processed :
  forall unicode_nd file (w : world) key chksum recoffset payloadlen,
    pos w <> fsize file ->
    unpack_8s3I (header_at file (pos w)) =
      Some (key, chksum, recoffset, payloadlen) ->
    let data := payload_at file (pos w) payloadlen in
    let metadata := fst (segment data) in
    let thumbnail := snd (segment data) in
    ~ occurs jpeg_header data ->
    Py.find jpeg_header data = -1 /\
    metadata ++ thumbnail = data /\
    iteration unicode_nd sanitize_run file w =
      (Ok Continue,
       add_o (zeroed thumbnail)
         (add_o metadata
            (add_o (header_at file (pos w))
               (set_pos (pos w + 20 + length data) w)))) /\
    forall d,
      match iteration unicode_nd (parse_args d false) file w with
      | (Ok fl, w') =>
          fl = Continue /\
          pos w' = (pos w + 20 + length data)%nat /\
          map RawMetadata (blob w') = map RawMetadata (blob w) ++ [metadata] /\
          map Thumbnail (blob w') = map Thumbnail (blob w) ++ [thumbnail] /\
          (stdout w' = stdout w \/
           stdout w' = stdout w ++ [not_understood (Z.of_nat (pos w))])
      | (SysExit code, w') =>
          code = 1 /\
          detected (Py.slice_to 4 metadata) = None /\
          stdout w' =
            stdout w ++ [codec_detection_error (Py.slice_to 4 metadata)]
      | (Uncaught _, _) => False
      end.
Proof.
  intros nd file w key chksum recoffset payloadlen Hp Hu data metadata
    thumbnail Hno.
  split; [now apply find_absent_iff|].
  split; [apply segment_app|].
  split.
  - rewrite (iteration_record nd file _ w _ _ _ _ Hp Hu).
    now rewrite process_sanitize.
  - intros d.
    rewrite (iteration_record nd file _ w _ _ _ _ Hp Hu), process_database.
    cbv zeta. fold data. fold metadata.
    destruct (detected (Py.slice_to 4 metadata)) as [[codec cp_len]|];
      [|now repeat split].
    destruct (decode_ignore_total codec metadata) as [text ->].
    first_match nd text;
      cbn [blob stdout pos add_blob_header add_blob add_line set_pos
           stored_blob RawMetadata Thumbnail];
      rewrite !map_app; repeat split; auto.
Qed.

Lemma markerless_payload_is_processed_witness :
  iteration ascii_only sanitize_run markerless_file (after_magic start) =
  (Ok Continue,
   add_o (zeroed [xd8])
     (add_o (encode_utf_16_le (lit "thumb1+0+/sdcard/img.jpg+1600000000+")
             ++ [xff])
        (add_o (header_of x4a) (set_pos 98 start)))).
Proof.
  refine (proj1 (proj2 (proj2
    (markerless_payload_is_processed ascii_only markerless_file
       (after_magic start) [x41; x42; x43; x44; x45; x46; x47; x48]
       1 0 74 _ _ _)))).
  - vm_compute. discriminate.
  - vm_compute. reflexivity.
  - apply find_absent_iff. vm_compute. reflexivity.
Defined.

(** C3, as stated, fails on [truncated_payload_file].  The header declares
    100 bytes and five remain; the read returns those five, nothing is
    raised, the record is stored, and the loop ends at the end of the file
    as it does for a complete file, the rows being committed. *)
Lemma truncated_payload_counterexample :
  unpack_8s3I (header_at truncated_payload_file 4) =
    Some ([x41; x42; x43; x44; x45; x46; x47; x48], 1, 0, 100) /\
  (fsize truncated_payload_file - (4 + 20) = 5)%nat /\
  forall unicode_nd,
    main unicode_nd database_run truncated_payload_file =
    Some (Ok tt,
          {| pos := 29; stdout := [not_understood 4]; o := [];
             o_closed := false;
             blob :=
               [{| Offset := 4; InternalPath := None; Unk := None;
                   OriginalFilePath := None; TimeStamp := None;
                   Extra := None; Thumbnail := jpeg_header ++ Py.zeros 2;
                   RawMetadata := [] |}];
             blob_header :=
               [{| HOffset := 4;
                   Key := [x41; x42; x43; x44; x45; x46; x47; x48];
                   Checksum := 1; BlobOffset := 0; BlobLength := 100;
                   RawBlobHeader := header_of x64 |}];
             committed := true |}).
Proof.
  split; [vm_compute; reflexivity|].
  split; [vm_compute; reflexivity|].
  intros nd. vm_compute. reflexivity.
Qed.

(** C3, amended.  When at least one byte but fewer than 20 bytes remain
    for a header, unpacking the header raises an error that nothing
    catches: the loop is left at once, and what was printed, written and
    inserted for the records before is as it was.  When a header is read
    in full and declares more payload than the file still holds, nothing
    is raised: the payload is the bytes that remain, the record is
    processed like any other with the read position at the end of the
    file, and in sanitize mode the next iteration finds the end of the
    file and ends the loop. *)
Theorem truncation_is_an_unpack_error_for_headers_only :
  forall unicode_nd a file (w : world) fuel,
    (pos w < fsize file)%nat ->
    ((fsize file < pos w + 20)%nat ->
     while_true (S fuel) (iteration unicode_nd a file) w =
     Some (Uncaught struct_error, set_pos (fsize file) w))
    /\
    (forall key chksum recoffset payloadlen,
       unpack_8s3I (header_at file (pos w)) =
         Some (key, chksum, recoffset, payloadlen) ->
       (fsize file < pos w + 20 + Z.to_nat payloadlen)%nat ->
       let data := skipn (pos w + 20) file in
       payload_at file (pos w) payloadlen = data /\
       iteration unicode_nd a file w =
         process unicode_nd a (pos w) (header_at file (pos w)) key chksum
           recoffset payloadlen data (set_pos (fsize file) w) /\
       (sanitize a = true ->
        while_true (S (S fuel)) (iteration unicode_nd a file) w =
        Some (Ok tt,
              add_o (zeroed (snd (segment data)))
                (add_o (fst (segment data))
                   (add_o (header_at file (pos w))
                      (set_pos (fsize file) w)))))).
Proof.
  intros nd a file w fuel Hlt. split.
  - intros Hshort. cbn [while_true].
    rewrite iteration_struct_error; [|lia|].
    + rewrite header_at_length.
      replace (pos w + Nat.min 20 (fsize file - pos w))%nat
        with (fsize file) by lia.
      reflexivity.
    + apply unpack_short. rewrite header_at_length. lia.
  - intros key chksum recoffset payloadlen Hu Hlong data.
    pose proof (unpack_length _ _ Hu) as Hlen.
    rewrite header_at_length in Hlen.
    assert (payload_at file (pos w) payloadlen = data) as Hd.
    { unfold payload_at, data. apply skipn_firstn_all.
      rewrite length_skipn. fold (fsize file). lia. }
    assert (pos w + 20 + length data = fsize file)%nat as Hend.
    { unfold data. rewrite length_skipn. fold (fsize file). lia. }
    assert (iteration nd a file w =
            process nd a (pos w) (header_at file (pos w)) key chksum
              recoffset payloadlen data (set_pos (fsize file) w)) as Hi.
    { rewrite (iteration_record nd file a w _ _ _ _ ltac:(lia) Hu).
      rewrite Hd, Hend. reflexivity. }
    split; [exact Hd|]. split; [exact Hi|].
    intros Hs. cbn [while_true]. rewrite Hi, process_sanitize by exact Hs.
    rewrite iteration_break; reflexivity.
Qed.

Lemma truncation_is_an_unpack_error_for_headers_only_witness :
  while_true 1 (iteration ascii_only sanitize_run truncated_header_file)
    (add_o (magic ++ header_of x03 ++ jpeg_header) (set_pos 27 start)) =
  Some (Uncaught struct_error,
        add_o (magic ++ header_of x03 ++ jpeg_header) (set_pos 32 start))
  /\
  while_true 2 (iteration ascii_only sanitize_run truncated_payload_file)
    (add_o magic (after_magic start)) =
  Some (Ok tt,
        add_o (zeroed (jpeg_header ++ Py.zeros 2))
          (add_o [] (add_o (header_of x64)
             (add_o magic (set_pos 29 start))))).
Proof.
  split.
  - refine (proj1
      (truncation_is_an_unpack_error_for_headers_only ascii_only sanitize_run
         truncated_header_file
         (add_o (magic ++ header_of x03 ++ jpeg_header) (set_pos 27 start))
         0%nat _) _).
    + vm_compute. lia.
    + vm_compute. lia.
  - refine (proj2 (proj2 (proj2
      (truncation_is_an_unpack_error_for_headers_only ascii_only sanitize_run
         truncated_payload_file (add_o magic (after_magic start)) 0%nat _)
      [x41; x42; x43; x44; x45; x46; x47; x48] 1 0 100 _ _)) _).
    + vm_compute. lia.
    + vm_compute. reflexivity.
    + vm_compute. lia.
    + reflexivity.
Defined.

(** C4, where it fails.  The third group of [meta_re] is [(.+?)], which
    reads at least one character, so that no match leaves the third field
    out: whatever the text, the path reported for a match is not empty.
    On [thumb1+0++1600000000+] the pattern does match, with [thumb1], [0]
    and [1600000000] for groups 1, 2 and 4, but group 3 is the second of
    the two [+] signs, and that is what is stored as [OriginalFilePath];
    on [thumb1++1600000000+], where the digit of the second field is left
    out as well, the pattern has no match at all. *)
Theorem omitted_path_is_matched_as_plus :
  forall unicode_nd,
    findall unicode_nd meta_re (lit "thumb1+0++1600000000+") =
      [(lit "thumb1", lit "0", lit "+", lit "1600000000", [])]
    /\
    match main unicode_nd database_run pathless_file with
    | Some (Ok _, w) =>
        map OriginalFilePath (blob w) = [Some (lit "+")] /\ stdout w = []
    | _ => False
    end
    /\
    findall unicode_nd meta_re (lit "thumb1++1600000000+") = []
    /\
    forall text apath unk fpath ts xtra ms,
      findall unicode_nd meta_re text = (apath, unk, fpath, ts, xtra) :: ms ->
      fpath <> [].
Proof.
  intros nd. split; [vm_compute; reflexivity|].
  split; [vm_compute; split; reflexivity|].
  split; [vm_compute; reflexivity|].
  intros text apath unk fpath ts xtra ms.
  apply parsed_path_is_never_empty.
Qed.

Lemma omitted_path_is_matched_as_plus_witness : lit "+" <> [].
Proof.
  refine (proj2 (proj2 (proj2 (omitted_path_is_matched_as_plus ascii_only)))
            (lit "thumb1+0++1600000000+") (lit "thumb1") (lit "0") (lit "+")
            (lit "1600000000") [] [] _).
  vm_compute. reflexivity.
Defined.

(** C5. On the scenario's file the run stores one record, at offset 4:
    [InternalPath] is [thumb1], [Unk] is [0], [OriginalFilePath] is
    [/sdcard/img.jpg], [TimeStamp] is [1600000000], [Extra] is [None], and
    the thumbnail is the 13 bytes from the marker on. *)
Theorem scenario_is_parsed :
  forall unicode_nd,
    main unicode_nd database_run scenario_file =
    Some (Ok tt,
          {| pos := 109; stdout := []; o := []; o_closed := false;
             blob :=
               [{| Offset := 4; InternalPath := Some (lit "thumb1");
                   Unk := Some (lit "0");
                   OriginalFilePath := Some (lit "/sdcard/img.jpg");
                   TimeStamp := Some (lit "1600000000"); Extra := None;
                   Thumbnail := jpeg_header ++ Py.zeros 10;
                   RawMetadata :=
                     encode_utf_16_le
                       (lit "thumb1+0+/sdcard/img.jpg+1600000000+") |}];
             blob_header :=
               [{| HOffset := 4;
                   Key := [x41; x42; x43; x44; x45; x46; x47; x48];
                   Checksum := 1; BlobOffset := 0; BlobLength := 85;
                   RawBlobHeader := header_of x55 |}];
             committed := true |})
    /\ decimal_value (lit "0") = 0
    /\ decimal_value (lit "1600000000") = 1600000000
    /\ length (jpeg_header ++ Py.zeros 10) = 13%nat
    /\ length (encode_utf_16_le (lit "thumb1+0+/sdcard/img.jpg+1600000000+")
               ++ jpeg_header ++ Py.zeros 10) = 85%nat.
Proof.
  intros nd. repeat split; vm_compute; reflexivity.
Qed.




(** C7. The encoding detector tries utf-32-le (code point length 4) and
    then utf-16-le (code point length 2), and returns the first of them
    that decodes the sample without a decode error, with its length; when
    neither decodes it, it prints a message and exits the process with
    status 1.  The exit is not caught: a record whose sample no codec
    decodes ends the loop, and with it the run, at that record, nothing
    being stored for it. *)
Theorem detect_codec_first_candidate :
  forall (data : bytes) (w : world),
    detect_codec data default_codecs w =
    match decode utf_32_le strict data, decode utf_16_le strict data with
    | Some _, _ => (Ok (utf_32_le, 4), w)
    | None, Some _ => (Ok (utf_16_le, 2), w)
    | None, None => (SysExit 1, add_line (codec_detection_error data) w)
    end
    /\
    forall unicode_nd file d key chksum recoffset payloadlen fuel,
      pos w <> fsize file ->
      unpack_8s3I (header_at file (pos w)) =
        Some (key, chksum, recoffset, payloadlen) ->
      Py.slice_to 4 (fst (segment (payload_at file (pos w) payloadlen))) =
        data ->
      decode utf_32_le strict data = None ->
      decode utf_16_le strict data = None ->
      while_true (S fuel) (iteration unicode_nd (parse_args d false) file) w =
      Some (SysExit 1,
            add_line (codec_detection_error data)
              (set_pos (pos w + 20 +
                        length (payload_at file (pos w) payloadlen)) w)).
Proof.
  intros data w. split.
  - rewrite detect_codec_detected. unfold detected.
    destruct (decode utf_32_le strict data); [reflexivity|].
    destruct (decode utf_16_le strict data); reflexivity.
  - intros nd file d key chksum recoffset payloadlen fuel Hp Hu Hs H32 H16.
    cbn [while_true].
    rewrite (iteration_record nd file _ w _ _ _ _ Hp Hu), process_database.
    cbv zeta. rewrite Hs. unfold detected. rewrite H32, H16. reflexivity.
Qed.

Lemma detect_codec_first_candidate_witness :
  while_true 1 (iteration ascii_only database_run undecodable_file)
    (after_magic start) =
  Some (SysExit 1,
        add_line (codec_detection_error [x00; xdc; x00; xdc])
          (set_pos 31 start)).
Proof.
  apply (proj2 (detect_codec_first_candidate [x00; xdc; x00; xdc]
                  (after_magic start))
           ascii_only undecodable_file false
           [x41; x42; x43; x44; x45; x46; x47; x48] 1 0 7 0%nat).
  - vm_compute. discriminate.
  - vm_compute. reflexivity.
  - vm_compute. reflexivity.
  - vm_compute. reflexivity.
  - vm_compute. reflexivity.
Defined.

(** C8. When the pattern has no match in the decoded metadata, nothing is
    raised: a message with the record's offset is printed, the record is
    stored with all five metadata fields [None], with its thumbnail and
    with its raw metadata bytes as they were read, and the loop goes on to
    the next record. *)
Theorem unparsed_metadata_is_stored :
  forall unicode_nd file d (w : world) key chksum recoffset payloadlen
         codec cp_len text,
    pos w <> fsize file ->
    unpack_8s3I (header_at file (pos w)) =
      Some (key, chksum, recoffset, payloadlen) ->
    let data := payload_at file (pos w) payloadlen in
    let metadata := fst (segment data) in
    detect_codec (Py.slice_to 4 metadata) default_codecs w =
      (Ok (codec, cp_len), w) ->
    decode codec ignore metadata = Some text ->
    findall unicode_nd meta_re text = [] ->
    iteration unicode_nd (parse_args d false) file w =
    (Ok Continue,
     add_blob_header
       {| HOffset := Z.of_nat (pos w); Key := key; Checksum := chksum;
          BlobOffset := recoffset; BlobLength := payloadlen;
          RawBlobHeader := header_at file (pos w) |}
       (add_blob
          {| Offset := Z.of_nat (pos w); InternalPath := None; Unk := None;
             OriginalFilePath := None; TimeStamp := None; Extra := None;
             Thumbnail := snd (segment data); RawMetadata := metadata |}
          (add_line (not_understood (Z.of_nat (pos w)))
             (set_pos (pos w + 20 + length data) w)))).
Proof.
  intros nd file d w key chksum recoffset payloadlen codec cp_len text
    Hp Hu data metadata Hc Hd Hf.
  rewrite (iteration_record nd file _ w _ _ _ _ Hp Hu), process_database.
  cbv zeta. fold data. fold metadata.
  rewrite detect_codec_detected in Hc.
  destruct (detected (Py.slice_to 4 metadata)) as [[c n]|]; [|discriminate].
  injection Hc as -> ->. rewrite Hd, Hf. reflexivity.
Qed.

Lemma unparsed_metadata_is_stored_witness :
  iteration ascii_only database_run unparsed_file (after_magic start) =
  (Ok Continue,
   add_blob_header
     {| HOffset := 4; Key := [x41; x42; x43; x44; x45; x46; x47; x48];
        Checksum := 1; BlobOffset := 0; BlobLength := 22;
        RawBlobHeader := header_of x16 |}
     (add_blob
        {| Offset := 4; InternalPath := None; Unk := None;
           OriginalFilePath := None; TimeStamp := None; Extra := None;
           Thumbnail := jpeg_header ++ [x00];
           RawMetadata := encode_utf_16_le (lit "no fields") |}
        (add_line (not_understood 4) (set_pos 46 start)))).
Proof.
  apply (unparsed_metadata_is_stored ascii_only unparsed_file false
           (after_magic start) [x41; x42; x43; x44; x45; x46; x47; x48]
           1 0 22 utf_16_le 2 (lit "no fields")).
  - vm_compute. discriminate.
  - vm_compute. reflexivity.
  - vm_compute. reflexivity.
  - vm_compute. reflexivity.
  - vm_compute. reflexivity.
Defined.

(** C9. A payload that starts with the marker is split into empty
    metadata and the whole payload as the thumbnail.  The encoding
    detector is given the empty sample and returns utf-32-le, the pattern
    has no match in the empty text, and the record is stored with all five
    fields [None], empty raw metadata and the payload as its thumbnail,
    the loop going on to the next record. *)
Theorem empty_metadata_is_stored :
  forall unicode_nd file d (w : world) key chksum recoffset payloadlen rest,
    pos w <> fsize file ->
    unpack_8s3I (header_at file (pos w)) =
      Some (key, chksum, recoffset, payloadlen) ->
    payload_at file (pos w) payloadlen = jpeg_header ++ rest ->
    segment (jpeg_header ++ rest) = ([], jpeg_header ++ rest) /\
    detect_codec (Py.slice_to 4 []) default_codecs w =
      (Ok (utf_32_le, 4), w) /\
    decode utf_32_le ignore [] = Some [] /\
    findall unicode_nd meta_re [] = [] /\
    iteration unicode_nd (parse_args d false) file w =
    (Ok Continue,
     add_blob_header
       {| HOffset := Z.of_nat (pos w); Key := key; Checksum := chksum;
          BlobOffset := recoffset; BlobLength := payloadlen;
          RawBlobHeader := header_at file (pos w) |}
       (add_blob
          {| Offset := Z.of_nat (pos w); InternalPath := None; Unk := None;
             OriginalFilePath := None; TimeStamp := None; Extra := None;
             Thumbnail := jpeg_header ++ rest; RawMetadata := [] |}
          (add_line (not_understood (Z.of_nat (pos w)))
             (set_pos (pos w + 20 + length (jpeg_header ++ rest)) w)))).
Proof.
  intros nd file d w key chksum recoffset payloadlen rest Hp Hu Hd.
  assert (segment (jpeg_header ++ rest) = ([], jpeg_header ++ rest)) as Hs.
  { unfold segment. rewrite find_prefix. reflexivity. }
  repeat split; try reflexivity; try exact Hs.
  rewrite (iteration_record nd file _ w _ _ _ _ Hp Hu), process_database.
  cbv zeta. rewrite Hd, Hs. reflexivity.
Qed.

Lemma empty_metadata_is_stored_witness :
  iteration ascii_only database_run bare_thumbnail_file (after_magic start) =
  (Ok Continue,
   add_blob_header
     {| HOffset := 4; Key := [x41; x42; x43; x44; x45; x46; x47; x48];
        Checksum := 1; BlobOffset := 0; BlobLength := 13;
        RawBlobHeader := header_of x0d |}
     (add_blob
        {| Offset := 4; InternalPath := None; Unk := None;
           OriginalFilePath := None; TimeStamp := None; Extra := None;
           Thumbnail := jpeg_header ++ Py.zeros 10; RawMetadata := [] |}
        (add_line (not_understood 4) (set_pos 37 start)))).
Proof.
  apply (empty_metadata_is_stored ascii_only bare_thumbnail_file false
           (after_magic start) [x41; x42; x43; x44; x45; x46; x47; x48]
           1 0 13 (Py.zeros 10)).
  - vm_compute. discriminate.
  - vm_compute. reflexivity.
  - vm_compute. reflexivity.
Defined.

(** C10. When the pattern matches and its fifth group is the empty
    string, the value bound to [Extra] in the [INSERT] is [None]: the
    other four fields are stored as matched. *)
Theorem empty_extra_is_stored_as_none :
  forall unicode_nd file d (w : world) key chksum recoffset payloadlen
         codec cp_len text apath unk fpath ts ms,
    pos w <> fsize file ->
    unpack_8s3I (header_at file (pos w)) =
      Some (key, chksum, recoffset, payloadlen) ->
    let data := payload_at file (pos w) payloadlen in
    let metadata := fst (segment data) in
    detect_codec (Py.slice_to 4 metadata) default_codecs w =
      (Ok (codec, cp_len), w) ->
    decode codec ignore metadata = Some text ->
    findall unicode_nd meta_re text = (apath, unk, fpath, ts, []) :: ms ->
    iteration unicode_nd (parse_args d false) file w =
    (Ok Continue,
     add_blob_header
       {| HOffset := Z.of_nat (pos w); Key := key; Checksum := chksum;
          BlobOffset := recoffset; BlobLength := payloadlen;
          RawBlobHeader := header_at file (pos w) |}
       (add_blob
          {| Offset := Z.of_nat (pos w); InternalPath := Some apath;
             Unk := Some unk; OriginalFilePath := Some fpath;
             TimeStamp := Some ts; Extra := None;
             Thumbnail := snd (segment data); RawMetadata := metadata |}
          (set_pos (pos w + 20 + length data) w))).
Proof.
  intros nd file d w key chksum recoffset payloadlen codec cp_len text
    apath unk fpath ts ms Hp Hu data metadata Hc Hd Hf.
  rewrite (iteration_record nd file _ w _ _ _ _ Hp Hu), process_database.
  cbv zeta. fold data. fold metadata.
  rewrite detect_codec_detected in Hc.
  destruct (detected (Py.slice_to 4 metadata)) as [[c n]|]; [|discriminate].
  injection Hc as -> ->. rewrite Hd, Hf. reflexivity.
Qed.

Lemma empty_extra_is_stored_as_none_witness :
  iteration ascii_only database_run scenario_file (after_magic start) =
  (Ok Continue,
   add_blob_header
     {| HOffset := 4; Key := [x41; x42; x43; x44; x45; x46; x47; x48];
        Checksum := 1; BlobOffset := 0; BlobLength := 85;
        RawBlobHeader := header_of x55 |}
     (add_blob
        {| Offset := 4; InternalPath := Some (lit "thumb1");
           Unk := Some (lit "0");
           OriginalFilePath := Some (lit "/sdcard/img.jpg");
           TimeStamp := Some (lit "1600000000"); Extra := None;
           Thumbnail := jpeg_header ++ Py.zeros 10;
           RawMetadata :=
             encode_utf_16_le (lit "thumb1+0+/sdcard/img.jpg+1600000000+") |}
        (set_pos 109 start))).
Proof.
  apply (empty_extra_is_stored_as_none ascii_only scenario_file false
           (after_magic start) [x41; x42; x43; x44; x45; x46; x47; x48]
           1 0 85 utf_16_le 2
           (lit "thumb1+0+/sdcard/img.jpg+1600000000+")
           (lit "thumb1") (lit "0") (lit "/sdcard/img.jpg")
           (lit "1600000000") []).
  - vm_compute. discriminate.
  - vm_compute. reflexivity.
  - vm_compute. reflexivity.
  - vm_compute. reflexivity.
  - vm_compute. reflexivity.
Defined.

(** * Further properties *)

(** ** Invariants of the loop *)

(** What holds before every iteration and is kept by an iteration that
    continues holds when the loop is left, whichever way it is left. *)
Lemma while_true_ind (body : M flow) (I : world -> Prop)
    (Q : result unit -> world -> Prop) :
  (forall w w', I w -> body w = (Ok Continue, w') -> I w') ->
  (forall w w', I w -> body w = (Ok Break, w') -> Q (Ok tt) w') ->
  (forall w code w', I w -> body w = (SysExit code, w') ->
                     Q (SysExit code) w') ->
  (forall w e w', I w -> body w = (Uncaught e, w') -> Q (Uncaught e) w') ->
  forall fuel w r w',
    I w -> while_true fuel body w = Some (r, w') -> Q r w'.
Proof.
  intros Hc Hb Hx He. induction fuel as [|fuel IH]; intros w r w' Hi H;
    [discriminate|].
  rewrite while_true_S in H.
  destruct (body w) as [[[|]|code|e] w1] eqn:E.
  - eapply IH; [eapply Hc; eassumption | exact H].
  - injection H as <- <-. eapply Hb; eassumption.
  - injection H as <- <-. eapply Hx; eassumption.
  - injection H as <- <-. eapply He; eassumption.
Qed.

Section Cases.

Variable unicode_nd : Z -> bool.
Variable file : bytes.

(** The ways an iteration ends in sanitize mode. *)
Lemma iteration_sanitize_cases (w : world) :
  iteration unicode_nd sanitize_run file w =
  if (pos w =? fsize file)%nat then (Ok Break, w)
  else
    match unpack_8s3I (header_at file (pos w)) with
    | None =>
        (Uncaught struct_error,
         set_pos (pos w + length (header_at file (pos w))) w)
    | Some (key, chksum, recoffset, payloadlen) =>
        let data := payload_at file (pos w) payloadlen in
        (Ok Continue,
         add_o (zeroed (snd (segment data)))
           (add_o (fst (segment data))
              (add_o (header_at file (pos w))
                 (set_pos (pos w + 20 + length data) w))))
    end.
Proof.
  destruct (pos w =? fsize file)%nat eqn:E.
  - apply Nat.eqb_eq in E. now apply iteration_break.
  - apply Nat.eqb_neq in E.
    destruct (unpack_8s3I (header_at file (pos w)))
      as [[[[key chksum] recoffset] payloadlen]|] eqn:Hu.
    + rewrite (iteration_record unicode_nd file _ w _ _ _ _ E Hu).
      now rewrite process_sanitize.
    + now apply iteration_struct_error.
Qed.

(** The ways an iteration ends in database mode. *)
Lemma iteration_database_cases (d : bool) (w : world) :
  iteration unicode_nd (parse_args d false) file w =
  if (pos w =? fsize file)%nat then (Ok Break, w)
  else
    match unpack_8s3I (header_at file (pos w)) with
    | None =>
        (Uncaught struct_error,
         set_pos (pos w + length (header_at file (pos w))) w)
    | Some (key, chksum, recoffset, payloadlen) =>
        let data := payload_at file (pos w) payloadlen in
        let w1 := set_pos (pos w + 20 + length data) w in
        match detected (Py.slice_to 4 (fst (segment data))) with
        | None =>
            (SysExit 1,
             add_line
               (codec_detection_error (Py.slice_to 4 (fst (segment data))))
               w1)
        | Some (codec, _) =>
            match decode codec ignore (fst (segment data)) with
            | None => (Uncaught UnicodeDecodeError, w1)
            | Some text =>
                match findall unicode_nd meta_re text with
                | (apath, unk, fpath, ts, xtra) :: _ =>
                    (Ok Continue,
                     add_blob_header
                       (stored_header (pos w) (header_at file (pos w)) key
                          chksum recoffset payloadlen)
                       (add_blob
                          (stored_blob (pos w)
                             (Some apath, Some unk, Some fpath, Some ts,
                              Some xtra) data) w1))
                | [] =>
                    (Ok Continue,
                     add_blob_header
                       (stored_header (pos w) (header_at file (pos w)) key
                          chksum recoffset payloadlen)
                       (add_blob
                          (stored_blob (pos w)
                             (None, None, None, None, None) data)
                          (add_line (not_understood (Z.of_nat (pos w)))
                             w1)))
                end
            end
        end
    end.
Proof.
  destruct (pos w =? fsize file)%nat eqn:E.
  - apply Nat.eqb_eq in E. now apply iteration_break.
  - apply Nat.eqb_neq in E.
    destruct (unpack_8s3I (header_at file (pos w)))
      as [[[[key chksum] recoffset] payloadlen]|] eqn:Hu.
    + rewrite (iteration_record unicode_nd file _ w _ _ _ _ E Hu).
      rewrite process_database. cbv zeta.
      destruct (detected _) as [[codec cp_len]|]; [|reflexivity].
      destruct (decode codec ignore _); reflexivity.
    + now apply iteration_struct_error.
Qed.

End Cases.

(** ** A file that is not a blob cache *)

Lemma bytes_eqb_false (x y : bytes) : x <> y -> bytes_eqb x y = false.
Proof. unfold bytes_eqb. now destruct (list_eq_dec _ x y). Qed.

Lemma bytes_eqb_refl (x : bytes) : bytes_eqb x x = true.
Proof. unfold bytes_eqb. now destruct (list_eq_dec _ x x). Qed.

Lemma before_loop_wrong (a : args) (file : bytes) :
  firstn 4 file <> magic ->
  before_loop a file start =
  (SysExit 1,
   add_line not_a_blob_cache (set_pos (length (firstn 4 file)) start)).
Proof.
  intros H. unfold before_loop, bind, f_read. cbn [pos start skipn].
  change (Z.to_nat 4) with 4%nat. rewrite (bytes_eqb_false _ _ H).
  reflexivity.
Qed.

Lemma before_loop_right (a : args) (file : bytes) :
  firstn 4 file = magic ->
  before_loop a file start =
  (Ok tt,
   if sanitize a then add_o magic (set_pos 4 start) else set_pos 4 start).
Proof.
  intros H. rewrite <- (firstn_skipn 4 file), H. apply before_loop_magic.
Qed.

Lemma main_wrong_header (nd : Z -> bool) (a : args) (file : bytes) :
  firstn 4 file <> magic ->
  main nd a file =
  Some (SysExit 1,
        {| pos := Nat.min 4 (length file); stdout := [not_a_blob_cache];
           o := []; o_closed := false; blob := []; blob_header := [];
           committed := false |}).
Proof.
  intros H. unfold main. rewrite (before_loop_wrong a file H).
  rewrite length_firstn. reflexivity.
Qed.

(** X2. A file whose first four bytes are not the blob cache header
    (a file of fewer than four bytes among them) ends the run at once, in
    either mode: the error line is printed, the process exits with status
    1, and nothing has been read past the header, written or stored. *)
Theorem wrong_file_header_exits :
  forall unicode_nd a file,
    firstn 4 file <> magic ->
    main unicode_nd a file =
    Some (SysExit 1,
          {| pos := Nat.min 4 (length file); stdout := [not_a_blob_cache];
             o := []; o_closed := false; blob := []; blob_header := [];
             committed := false |}).
Proof. exact main_wrong_header. Qed.

Lemma wrong_file_header_exits_witness :
  main ascii_only sanitize_run [x10; x85; x24] =
  Some (SysExit 1,
        {| pos := 3; stdout := [not_a_blob_cache];
           o := []; o_closed := false; blob := []; blob_header := [];
           committed := false |}).
Proof.
  apply (wrong_file_header_exits ascii_only sanitize_run [x10; x85; x24]).
  vm_compute. discriminate.
Defined.

(** ** What a run in sanitize mode leaves behind *)

Lemma firstn_app_keep {A : Type} (n : nat) (l x : list A) :
  (n <= length l)%nat -> firstn n (l ++ x) = firstn n l.
Proof.
  intros H. rewrite firstn_app.
  replace (n - length l)%nat with 0%nat by lia.
  cbn [firstn]. apply app_nil_r.
Qed.

Lemma starts_with_magic_app (l x : bytes) :
  firstn 4 l = magic -> firstn 4 (l ++ x) = magic.
Proof.
  intros H. rewrite firstn_app_keep; [exact H|].
  apply (f_equal (@length byte)) in H. rewrite length_firstn in H.
  change (length magic) with 4%nat in H. unfold bytes in *. lia.
Qed.

Lemma sanitize_loop (nd : Z -> bool) (file : bytes) fuel (w : world) r w' :
  blob w = [] -> blob_header w = [] -> committed w = false ->
  stdout w = [] -> o_closed w = false -> firstn 4 (o w) = magic ->
  while_true fuel (iteration nd sanitize_run file) w = Some (r, w') ->
  (blob w' = [] /\ blob_header w' = [] /\ committed w' = false /\
   stdout w' = [] /\ o_closed w' = false /\ firstn 4 (o w') = magic) /\
  match r with
  | Ok _ => pos w' = fsize file
  | SysExit _ => False
  | Uncaught e => e = struct_error
  end.
Proof.
  intros H1 H2 H3 H4 H5 H6.
  pose (I := fun w : world =>
    blob w = [] /\ blob_header w = [] /\ committed w = false /\
    stdout w = [] /\ o_closed w = false /\ firstn 4 (o w) = magic).
  apply (while_true_ind (iteration nd sanitize_run file) I
           (fun r w' => I w' /\
              match r with
              | Ok _ => pos w' = fsize file
              | SysExit _ => False
              | Uncaught e => e = struct_error
              end));
    [ | | | | now repeat split ];
    clear; unfold I; intros w;
    [ intros w' Hi | intros w' Hi | intros code w' Hi | intros e w' Hi ];
    rewrite iteration_sanitize_cases;
    (destruct (pos w =? fsize file)%nat eqn:E;
     [ | destruct (unpack_8s3I (header_at file (pos w)))
           as [[[[key chksum] recoffset] payloadlen]|] ]);
    cbv zeta; intros [= ]; subst.
  - destruct Hi as (? & ? & ? & ? & ? & Ho). cbn.
    repeat split; auto. now repeat apply starts_with_magic_app.
  - split; [exact Hi | now apply Nat.eqb_eq].
  - split; [exact Hi | reflexivity].
Qed.

(** X3. From the opening of the two files on, a run in sanitize mode
    never touches the database and never parses metadata: whatever the
    input file holds, no row is inserted, nothing is committed, and what
    follows the opening of the files ends in one of three ways.  It ends
    normally, at the end of the file, with nothing printed and the
    sanitized file closed, starting with the file header; or with a file
    that does not start with the file header it exits with status 1 and
    an empty sanitized file; or a header of fewer than 20 bytes raises
    [struct.error], nothing being printed and the sanitized file left
    open.  What comes before the files are open is not part of this: the
    forming of the name of the sanitized file raises an [IndexError] for
    a name without a dot, as [sanitized_name] shows, and opening a file
    can fail. *)
Theorem sanitize_run_leaves_the_database_alone :
  forall unicode_nd file,
    match main unicode_nd sanitize_run file with
    | Some (r, w) =>
        blob w = [] /\ blob_header w = [] /\ committed w = false /\
        match r with
        | Ok _ =>
            stdout w = [] /\ o_closed w = true /\ pos w = fsize file /\
            firstn 4 (o w) = magic
        | SysExit code =>
            code = 1 /\ firstn 4 file <> magic /\ o w = [] /\
            stdout w = [not_a_blob_cache]
        | Uncaught e =>
            e = struct_error /\ stdout w = [] /\ o_closed w = false /\
            firstn 4 (o w) = magic
        end
    | None => False
    end.
Proof.
  intros nd file.
  destruct (list_eq_dec Byte.byte_eq_dec (firstn 4 file) magic) as [Hm | Hm].
  2:{ rewrite (main_wrong_header nd sanitize_run file Hm).
      now repeat split. }
  unfold main. rewrite (before_loop_right _ _ Hm).
  cbn [sanitize sanitize_run parse_args].
  destruct (while_true_returns nd file sanitize_run (S (fsize file))
              (add_o magic (set_pos 4 start))) as [[r w] Hr].
  { cbn [pos add_o set_pos]. unfold fsize.
    apply (f_equal (@length byte)) in Hm. rewrite length_firstn in Hm.
    change (length magic) with 4%nat in Hm. unfold bytes in *. lia. }
  { lia. }
  rewrite Hr.
  apply sanitize_loop in Hr; try reflexivity.
  destruct Hr as [(B & H & C & S & Oc & Om) Hr].
  destruct r as [[]|code|e]; [|destruct Hr|]; cbn; now repeat split.
Qed.

(** ** What a run in database mode leaves behind *)

Lemma firstn_add_skipn {A : Type} (p n : nat) (l : list A) :
  firstn (p + n) l = firstn p l ++ firstn n (skipn p l).
Proof.
  revert l. induction p as [|p IH]; intros l; [reflexivity|].
  destruct l as [|x l]; cbn [Nat.add firstn skipn app].
  - now rewrite firstn_nil.
  - now rewrite IH.
Qed.

Lemma firstn_length_firstn {A : Type} (n : nat) (l : list A) :
  firstn (length (firstn n l)) l = firstn n l.
Proof.
  rewrite length_firstn. destruct (Nat.le_ge_cases n (length l)) as [H | H].
  - now rewrite Nat.min_l.
  - rewrite Nat.min_r by exact H. now rewrite firstn_all, firstn_all2.
Qed.

(** The bytes an iteration reads follow the bytes read before it. *)
Lemma firstn_record (file : bytes) (p : nat) (n : Z) :
  length (header_at file p) = 20%nat ->
  firstn (p + 20 + length (payload_at file p n)) file =
  firstn p file ++ header_at file p ++ payload_at file p n.
Proof.
  intros _. rewrite !firstn_add_skipn, <- app_assoc. f_equal. f_equal.
  unfold payload_at. apply firstn_length_firstn.
Qed.

Lemma strongly_sorted_snoc (l : list Z) (y : Z) :
  StronglySorted Z.lt l -> Forall (fun x => x < y) l ->
  StronglySorted Z.lt (l ++ [y]).
Proof.
  induction 1 as [|x l Hs IH Hx]; intros Hy; cbn.
  - repeat constructor.
  - inversion Hy as [|? ? Hxy Hl]; subst. constructor; [now apply IH|].
    apply Forall_app. split; [exact Hx | now constructor].
Qed.

Lemma strongly_sorted_nodup (l : list Z) :
  StronglySorted Z.lt l -> NoDup l.
Proof.
  induction 1 as [|x l Hs IH Hx]; constructor; [|exact IH].
  intros Hin. rewrite Forall_forall in Hx. specialize (Hx x Hin). lia.
Qed.

Lemma combine_snoc {A B : Type} (l : list A) (l' : list B) a b :
  length l = length l' ->
  combine (l ++ [a]) (l' ++ [b]) = combine l l' ++ [(a, b)].
Proof.
  revert l'. induction l as [|x l IH]; intros [|y l'] H; try discriminate;
    [reflexivity|].
  cbn. f_equal. apply IH. now injection H.
Qed.

Section Database.

Variable unicode_nd : Z -> bool.
Variable file : bytes.

(** A change of the read position or of what was printed changes nothing
    of the state of the tables. *)
Lemma database_state_frame (p : nat) (w w' : world) :
  database_state file p w ->
  o w' = o w -> o_closed w' = o_closed w -> blob w' = blob w ->
  blob_header w' = blob_header w ->
  (pos w <= pos w' <= fsize file)%nat ->
  database_state file p w'.
Proof.
  unfold database_state, stored_bytes.
  intros (H1 & H2 & H3 & H4 & H5 & H6 & H7 & H8 & H9) Ho Hc Hb Hh Hp.
  rewrite Ho, Hc, Hb, Hh. repeat split; auto; lia.
Qed.

(** The state of the tables after a record was stored. *)
Lemma database_state_store (w w1 : world) key chksum recoffset payloadlen m :
  database_state file (pos w) w ->
  unpack_8s3I (header_at file (pos w)) =
    Some (key, chksum, recoffset, payloadlen) ->
  let data := payload_at file (pos w) payloadlen in
  let p' := (pos w + 20 + length data)%nat in
  o w1 = o w -> o_closed w1 = o_closed w -> blob w1 = blob w ->
  blob_header w1 = blob_header w -> pos w1 = p' ->
  database_state file p'
    (add_blob_header
       (stored_header (pos w) (header_at file (pos w)) key chksum recoffset
          payloadlen)
       (add_blob (stored_blob (pos w) m data) w1)).
Proof.
  intros Hs Hu data p' Ho Hc Hb Hh Hp. revert Hs.
  unfold database_state, stored_bytes.
  intros (H1 & H2 & H3 & H4 & H5 & H6 & H7 & H8 & H9).
  pose proof (unpack_length _ _ Hu) as Hlen.
  pose proof Hlen as Hlen'. rewrite header_at_length in Hlen'.
  assert (p' <= fsize file)%nat as Hp'.
  { unfold p', data. rewrite payload_at_length. lia. }
  destruct m as [[[[apath unk] fpath] ts] xtra].
  cbn [o o_closed blob blob_header pos add_blob_header add_blob].
  rewrite Ho, Hc, Hb, Hh, Hp. repeat split; auto; try lia.
  - rewrite !length_app. cbn. lia.
  - rewrite !map_app, H6. reflexivity.
  - rewrite map_app. apply strongly_sorted_snoc; [exact H7|].
    cbn [map stored_blob Offset]. revert H8. apply Forall_impl. lia.
  - rewrite map_app. apply Forall_app. split.
    + revert H8. apply Forall_impl. lia.
    + cbn [map stored_blob Offset]. repeat constructor; lia.
  - rewrite combine_snoc by exact H5. rewrite flat_map_app.
    cbn [flat_map fst snd stored_header stored_blob RawBlobHeader
         RawMetadata Thumbnail].
    rewrite app_nil_r, segment_app, app_assoc, <- H9.
    apply firstn_record. exact Hlen.
Qed.

Lemma database_loop (d : bool) fuel (w : world) r w' :
  database_state file (pos w) w -> committed w = false ->
  while_true fuel (iteration unicode_nd (parse_args d false) file) w =
    Some (r, w') ->
  committed w' = false /\
  exists p, database_state file p w' /\ (r = Ok tt -> p = fsize file).
Proof.
  intros Hs Hc.
  pose (I := fun w : world =>
    database_state file (pos w) w /\ committed w = false).
  apply (while_true_ind (iteration unicode_nd (parse_args d false) file) I
           (fun r w' => committed w' = false /\
              exists p, database_state file p w' /\
                        (r = Ok tt -> p = fsize file)));
    [ | | | | now split ];
    clear; unfold I; intros w;
    [ intros w' [Hs Hc] | intros w' [Hs Hc] | intros code w' [Hs Hc]
    | intros e w' [Hs Hc] ];
    rewrite iteration_database_cases;
    (destruct (pos w =? fsize file)%nat eqn:E;
     [ | destruct (unpack_8s3I (header_at file (pos w)))
           as [[[[key chksum] recoffset] payloadlen]|] eqn:Hu;
         [ cbv zeta;
           destruct (detected _) as [[codec cp_len]|];
           [ destruct (decode codec ignore _) as [text|];
             [ first_match unicode_nd text | ] | ] | ] ]);
    intros [= ]; subst;
    try (pose proof (unpack_length _ _ Hu) as Hlen;
         rewrite header_at_length in Hlen;
         pose proof (payload_at_length file (pos w) payloadlen) as Hpl).
  - (* stored, not understood *)
    split; [|exact Hc].
    match goal with
    | |- database_state _ _ (add_blob_header _ (add_blob _ ?w1)) =>
        exact (database_state_store w w1 key chksum recoffset payloadlen
                 (None, None, None, None, None)
                 Hs Hu eq_refl eq_refl eq_refl eq_refl eq_refl)
    end.
  - (* stored *)
    split; [|exact Hc].
    match goal with
    | |- database_state _ _ (add_blob_header _ (add_blob _ ?w1)) =>
        exact (database_state_store w w1 key chksum recoffset payloadlen
                 (Some apath, Some unk, Some fpath, Some ts, Some xtra)
                 Hs Hu eq_refl eq_refl eq_refl eq_refl eq_refl)
    end.
  - (* break *)
    split; [exact Hc|]. exists (pos w'). split; [exact Hs|].
    intros _. now apply Nat.eqb_eq.
  - (* no codec *)
    split; [exact Hc|]. exists (pos w). split; [|discriminate].
    apply (database_state_frame _ w); auto. cbn [pos add_line set_pos]. lia.
  - (* decoding *)
    split; [exact Hc|]. exists (pos w). split; [|discriminate].
    apply (database_state_frame _ w); auto. cbn [pos set_pos]. lia.
  - (* short header *)
    split; [exact Hc|]. exists (pos w). split; [|discriminate].
    apply (database_state_frame _ w); auto. cbn [pos set_pos].
    rewrite header_at_length.
    destruct Hs as (_ & _ & _ & Hle & _). lia.
Qed.

(** What a run in database mode leaves behind, for a file that starts
    with the file header. *)
Lemma database_run_state (d : bool) :
  firstn 4 file = magic ->
  match main unicode_nd (parse_args d false) file with
  | Some (r, w) =>
      (committed w = true <-> r = Ok tt) /\
      exists p, database_state file p w /\ (r = Ok tt -> p = fsize file)
  | None => False
  end.
Proof.
  intros Hm. unfold main. rewrite (before_loop_right _ _ Hm).
  cbn [sanitize parse_args].
  assert (4 <= fsize file)%nat as H4.
  { apply (f_equal (@length byte)) in Hm. rewrite length_firstn in Hm.
    change (length magic) with 4%nat in Hm. unfold fsize, bytes in *. lia. }
  destruct (while_true_returns unicode_nd file (parse_args d false)
              (S (fsize file)) (set_pos 4 start)) as [[r w] Hr];
    [cbn; lia | cbn; lia |].
  rewrite Hr. apply database_loop in Hr; [|  | reflexivity].
  2:{ unfold database_state, stored_bytes. cbn.
      repeat split; auto; try lia; try constructor.
      now rewrite app_nil_r. }
  destruct Hr as (Hc & p & Hs & Hp).
  assert (database (parse_args d false) = true) as Hd by (now destruct d).
  destruct r as [[]|code|e].
  - unfold after_loop, bind. rewrite Hd. cbn. split; [easy|].
    exists p. split; [|exact Hp].
    apply (database_state_frame _ w); auto. cbn. 
    destruct Hs as (_ & _ & _ & Hle & _). lia.
  - split; [rewrite Hc; easy | eauto].
  - split; [rewrite Hc; easy | eauto].
Qed.

End Database.

(** X4. In database mode the two tables are filled in step and keyed
    consistently, whatever the file and however the run ends: nothing is
    written to the sanitized file, [blob] and [blob_header] hold the same
    number of rows with the same offsets in the same order, the offsets
    increase strictly from row to row, so that no [INSERT] meets a
    primary key that is already there, and every offset is the position
    of a 20-byte header inside the file, past the file header. *)
Theorem database_rows_are_keyed_by_increasing_offsets :
  forall unicode_nd d file,
    match main unicode_nd (parse_args d false) file with
    | Some (r, w) =>
        o w = [] /\ o_closed w = false /\
        length (blob_header w) = length (blob w) /\
        map Offset (blob w) = map HOffset (blob_header w) /\
        StronglySorted Z.lt (map Offset (blob w)) /\
        NoDup (map Offset (blob w)) /\
        Forall (fun x => 4 <= x /\ x + 20 <= Z.of_nat (fsize file))
          (map Offset (blob w))
    | None => False
    end.
Proof.
  intros nd d file.
  destruct (list_eq_dec Byte.byte_eq_dec (firstn 4 file) magic) as [Hm | Hm].
  2:{ rewrite (main_wrong_header nd _ file Hm). cbn.
      repeat split; constructor. }
  pose proof (database_run_state nd file d Hm) as H.
  destruct (main nd (parse_args d false) file) as [[r w]|]; [|exact H].
  destruct H as (_ & p & (H1 & H2 & H3 & H4 & H5 & H6 & H7 & H8 & H9) & _).
  repeat split; auto.
  - now apply strongly_sorted_nodup.
  - revert H8. apply Forall_impl. lia.
Qed.

(** X5. In database mode the rows are committed exactly when the run
    ends normally: a run that is ended by [sys.exit] (a file that is not a
    blob cache, metadata in no known codec) or by an uncaught exception
    (a header cut short) never reaches [db.commit()], whatever it had
    inserted before. *)
Theorem database_is_committed_on_normal_end_only :
  forall unicode_nd d file,
    match main unicode_nd (parse_args d false) file with
    | Some (r, w) => committed w = true <-> r = Ok tt
    | None => False
    end.
Proof.
  intros nd d file.
  destruct (list_eq_dec Byte.byte_eq_dec (firstn 4 file) magic) as [Hm | Hm].
  2:{ rewrite (main_wrong_header nd _ file Hm). cbn. easy. }
  pose proof (database_run_state nd file d Hm) as H.
  destruct (main nd (parse_args d false) file) as [[r w]|]; [|exact H].
  exact (proj1 H).
Qed.

(** X6. In database mode nothing of what was read is lost: the raw
    header, the raw metadata and the thumbnail of the rows, one record
    after the other, are the bytes of the file that follow its first four
    bytes, up to where the last stored record ends; after a run that ends
    normally they are, after the file header, the whole file. *)
Theorem database_rows_rebuild_the_file :
  forall unicode_nd d file,
    match main unicode_nd (parse_args d false) file with
    | Some (r, w) =>
        (exists rest, file = firstn 4 file ++ stored_bytes w ++ rest) /\
        (r = Ok tt -> file = magic ++ stored_bytes w)
    | None => False
    end.
Proof.
  intros nd d file.
  destruct (list_eq_dec Byte.byte_eq_dec (firstn 4 file) magic) as [Hm | Hm].
  2:{ rewrite (main_wrong_header nd _ file Hm). split; [|discriminate].
      exists (skipn 4 file). unfold stored_bytes. cbn [blob blob_header combine flat_map app].
      symmetry. apply firstn_skipn. }
  pose proof (database_run_state nd file d Hm) as H.
  destruct (main nd (parse_args d false) file) as [[r w]|]; [|exact H].
  destruct H as (_ & p & (H1 & H2 & H3 & H4 & H5 & H6 & H7 & H8 & H9) & Hp).
  split.
  - exists (skipn p file). rewrite app_assoc, <- H9. symmetry.
    apply firstn_skipn.
  - intros Hr. rewrite (Hp Hr) in H9. unfold fsize in H9.
    rewrite firstn_all in H9. now rewrite <- Hm.
Qed.

(** ** Where a payload is split *)

Lemma find_from_first (sub data : bytes) (i : Z) :
  Py.find_from sub data i = -1 \/
  exists n, Py.find_from sub data i = i + Z.of_nat n /\
            (n <= length data)%nat /\
            Py.startswith sub (skipn n data) = true /\
            forall m, (m < n)%nat -> Py.startswith sub (skipn m data) = false.
Proof.
  revert i. induction data as [|y data IH]; intros i; simpl.
  - destruct (Py.startswith sub []) eqn:E; [|now left].
    right. exists 0%nat. repeat split; [lia | lia | exact E | lia].
  - destruct (Py.startswith sub (y :: data)) eqn:E.
    + right. exists 0%nat. repeat split; [lia | lia | exact E | lia].
    + destruct (IH (i + 1)) as [H | (n & H1 & H2 & H3 & H4)]; [now left|].
      right. exists (S n). repeat split; [lia | lia | exact H3 |].
      intros [|m] Hm; [exact E | apply H4; lia].
Qed.

Lemma segment_present (data : bytes) :
  occurs jpeg_header data ->
  exists n, segment data = (firstn n data, skipn n data) /\
            (n <= length data)%nat /\
            Py.startswith jpeg_header (skipn n data) = true /\
            forall m, (m < n)%nat ->
                      Py.startswith jpeg_header (skipn m data) = false.
Proof.
  intros Ho. unfold segment, Py.find.
  destruct (find_from_first jpeg_header data 0) as [H | (n & H1 & H2 & H3 & H4)].
  - exfalso. now apply (find_from_present jpeg_header data 0).
  - exists n. rewrite H1. unfold Py.slice_to, Py.slice_from, Py.slice_index.
    destruct (0 + Z.of_nat n <? 0) eqn:E; [apply Z.ltb_lt in E; lia|].
    replace (Nat.min (Z.to_nat (0 + Z.of_nat n)) (length data)) with n by lia.
    auto.
Qed.

Lemma segment_absent (data : bytes) :
  ~ occurs jpeg_header data ->
  segment data =
  (firstn (length data - 1) data, skipn (length data - 1) data).
Proof.
  intros Ho. unfold segment. apply find_absent_iff in Ho. rewrite Ho.
  unfold Py.slice_to, Py.slice_from, Py.slice_index. cbn [Z.ltb Z.compare].
  replace (Z.to_nat (Z.max 0 (-1 + Z.of_nat (length data))))
    with (length data - 1)%nat by lia.
  reflexivity.
Qed.

(** X7. A payload in which the marker [FF D8 FF] occurs is split at the
    first occurrence of the marker: the thumbnail starts with the marker,
    the metadata followed by the thumbnail is the payload, and the marker
    occurs nowhere in the payload at a position before the end of the
    metadata. *)
Theorem segment_splits_at_the_first_marker :
  forall data,
    occurs jpeg_header data ->
    exists image,
      snd (segment data) = jpeg_header ++ image /\
      data = fst (segment data) ++ jpeg_header ++ image /\
      forall pre post,
        data = pre ++ jpeg_header ++ post ->
        (length (fst (segment data)) <= length pre)%nat.
Proof.
  intros data Ho.
  destruct (segment_present data Ho) as (n & Hs & Hn & Hst & Hmin).
  apply startswith_iff in Hst. destruct Hst as [image Hi].
  exists image. rewrite Hs. cbn [fst snd]. repeat split.
  - exact Hi.
  - rewrite <- Hi. symmetry. apply firstn_skipn.
  - intros pre post Hd. rewrite length_firstn.
    destruct (Nat.lt_ge_cases (length pre) n) as [Hlt | Hge]; [|lia].
    exfalso. specialize (Hmin _ Hlt).
    assert (Py.startswith jpeg_header (skipn (length pre) data) = true) as E.
    { apply startswith_iff. exists post. rewrite Hd at 1.
      rewrite skipn_app, skipn_all, Nat.sub_diag. reflexivity. }
    congruence.
Qed.

Lemma segment_splits_at_the_first_marker_witness :
  exists image,
    snd (segment scenario_payload) = jpeg_header ++ image /\
    scenario_payload = fst (segment scenario_payload) ++ jpeg_header ++ image /\
    forall pre post,
      scenario_payload = pre ++ jpeg_header ++ post ->
      (length (fst (segment scenario_payload)) <= length pre)%nat.
Proof.
  apply (segment_splits_at_the_first_marker scenario_payload).
  exists (firstn 72 scenario_payload), (skipn 75 scenario_payload).
  vm_compute. reflexivity.
Defined.

(** X8. A payload in which the marker does not occur is split before its
    last byte, the slices at the [-1] that [find] answers: the metadata is
    the payload without its last byte and the thumbnail is that last byte
    (both are empty for an empty payload).  What the sanitized file gets
    for such a thumbnail is the bare marker, which the payload did not
    have. *)
Theorem markerless_payload_is_split_before_its_last_byte :
  forall data,
    ~ occurs jpeg_header data ->
    fst (segment data) = removelast data /\
    snd (segment data) = skipn (length data - 1) data /\
    (length (snd (segment data)) <= 1)%nat /\
    zeroed (snd (segment data)) = jpeg_header.
Proof.
  intros data Ho. rewrite (segment_absent data Ho). cbn [fst snd].
  assert (length (skipn (length data - 1) data) <= 1)%nat as Hl
    by (rewrite length_skipn; lia).
  repeat split.
  - rewrite removelast_firstn_len. f_equal. lia.
  - exact Hl.
  - unfold zeroed. rewrite slice_from_length by lia.
    replace (length (skipn (length data - 1) data) - Z.to_nat 4)%nat
      with 0%nat by lia.
    reflexivity.
Qed.

Lemma markerless_payload_is_split_before_its_last_byte_witness :
  fst (segment markerless_payload) = removelast markerless_payload /\
  snd (segment markerless_payload) =
    skipn (length markerless_payload - 1) markerless_payload /\
  (length (snd (segment markerless_payload)) <= 1)%nat /\
  zeroed (snd (segment markerless_payload)) = jpeg_header.
Proof.
  apply (markerless_payload_is_split_before_its_last_byte markerless_payload).
  apply find_absent_iff. vm_compute. reflexivity.
Defined.

(** ** What the sanitized file keeps of the thumbnails *)

Lemma segment_lengths (data : bytes) :
  length data =
  (length (fst (segment data)) + length (snd (segment data)))%nat.
Proof. rewrite <- (segment_app data) at 1. apply length_app. Qed.

Lemma sanitized_same (rs1 rs2 : list (bytes * bytes)) :
  Forall2 same_but_thumbnail rs1 rs2 ->
  sanitized rs1 = sanitized rs2 /\ records_size rs1 = records_size rs2.
Proof.
  induction 1 as [|[h1 d1] [h2 d2] rs1 rs2 (Hh & Hm & Hl) _ [IH1 IH2]];
    [split; reflexivity|].
  cbn [fst snd] in Hh, Hm, Hl. subst h2.
  rewrite !records_size_cons. cbn [snd]. rewrite IH2, Hl. split; [|reflexivity].
  unfold sanitized in *. cbn [flat_map fst snd]. rewrite IH1, Hm.
  do 3 f_equal. unfold zeroed. do 2 f_equal.
  rewrite !slice_from_length by lia.
  pose proof (segment_lengths d1). pose proof (segment_lengths d2).
  rewrite Hm in *. unfold bytes in *. lia.
Qed.

(** X9. The sanitized file discloses nothing of the thumbnails but their
    lengths: two files that are tiled by records with the same headers,
    the same metadata and payloads of the same lengths give the same run
    in sanitize mode, the same bytes written to the sanitized file
    included, whatever their thumbnails hold. *)
Theorem sanitized_file_hides_the_thumbnails :
  forall unicode_nd body1 body2 records1 records2,
    tiles body1 records1 ->
    tiles body2 records2 ->
    Forall2 same_but_thumbnail records1 records2 ->
    main unicode_nd sanitize_run (magic ++ body1) =
    main unicode_nd sanitize_run (magic ++ body2).
Proof.
  intros nd body1 body2 rs1 rs2 Ht1 Ht2 Hs.
  rewrite (main_sanitize_tiles nd body1 rs1 Ht1).
  rewrite (main_sanitize_tiles nd body2 rs2 Ht2).
  destruct (sanitized_same rs1 rs2 Hs) as [Ho Hl].
  rewrite Ho, !length_app, (tiles_size _ _ Ht1), (tiles_size _ _ Ht2), Hl.
  reflexivity.
Qed.

Lemma sanitized_file_hides_the_thumbnails_witness :
  repainted_payload <> scenario_payload /\
  main ascii_only sanitize_run
    (magic ++ header_of x55 ++ scenario_payload ++ []) =
  main ascii_only sanitize_run
    (magic ++ header_of x55 ++ repainted_payload ++ []).
Proof.
  split; [discriminate|].
  apply (sanitized_file_hides_the_thumbnails ascii_only _ _
           [(header_of x55, scenario_payload)]
           [(header_of x55, repainted_payload)]).
  - apply (tiles_cons _ [x41; x42; x43; x44; x45; x46; x47; x48] 1 0 85);
      [reflexivity | reflexivity | apply tiles_nil].
  - apply (tiles_cons _ [x41; x42; x43; x44; x45; x46; x47; x48] 1 0 85);
      [reflexivity | reflexivity | apply tiles_nil].
  - constructor; [|constructor].
    repeat split; vm_compute; reflexivity.
Defined.

(** ** The name of the sanitized file *)

Lemma rsplit_last_some (sep : Z) (s l r : str) :
  rsplit_last sep s = Some (l, r) ->
  s = l ++ [sep] ++ r /\ ~ In sep r.
Proof.
  revert l r. induction s as [|x s IH]; intros l r; cbn [rsplit_last];
    [discriminate|].
  destruct (rsplit_last sep s) as [[l' r']|] eqn:E.
  - intros [= <- <-]. destruct (IH l' r' eq_refl) as [-> Hr].
    split; [reflexivity | exact Hr].
  - destruct (x =? sep) eqn:Ex; [|discriminate].
    intros [= <- <-]. apply Z.eqb_eq in Ex. subst x.
    split; [reflexivity|].
    clear IH. induction s as [|y s IH]; [intros []|].
    cbn [rsplit_last] in E. destruct (rsplit_last sep s) as [[? ?]|];
      [discriminate|].
    destruct (y =? sep) eqn:Ey; [discriminate|]. apply Z.eqb_neq in Ey.
    intros [H | H]; [congruence | now apply IH].
Qed.

Lemma rsplit_last_none (sep : Z) (s : str) :
  rsplit_last sep s = None -> ~ In sep s.
Proof.
  induction s as [|y s IH]; [intros _ []|].
  cbn [rsplit_last]. destruct (rsplit_last sep s) as [[? ?]|];
    [discriminate|].
  destruct (y =? sep) eqn:Ey; [discriminate|]. apply Z.eqb_neq in Ey.
  intros _ [H | H]; [congruence | now apply IH].
Qed.

(** X10. The name under which sanitize mode opens its output: when the
    name of the input holds a dot, it is the name with [_sanitized]
    put before its last dot, and it is never the name of the input
    itself; when the name of the input holds no dot, there is no name:
    [fname[1]] raises an [IndexError] that nothing catches, before any
    file is opened. *)
Theorem sanitized_name_splits_at_the_last_dot :
  forall FILE,
    match sanitized_name FILE with
    | Some name =>
        exists stem ext,
          FILE = stem ++ lit "." ++ ext /\ ~ In 46 ext /\
          name = stem ++ lit "_sanitized." ++ ext /\
          name <> FILE
    | None => ~ In 46 FILE
    end.
Proof.
  intros FILE. unfold sanitized_name, rsplit1.
  destruct (rsplit_last 46 FILE) as [[l r]|] eqn:E; cbn [nth_error].
  - apply rsplit_last_some in E. destruct E as [-> Hr].
    exists l, r. repeat split; [exact Hr|].
    intros H. apply (f_equal (@length Z)) in H.
    rewrite !length_app in H. cbn in H. lia.
  - now apply rsplit_last_none.
Qed.

(** ** What [meta_re] reads *)

Lemma loop_sound body (R : str -> captures -> str -> captures -> Prop)
    greedy n :
  (forall s c k res, body s c k = Some res ->
     exists s' c', R s c s' c' /\ k s' c' = Some res) ->
  forall lo hi s c k res,
    loop body greedy n lo hi s c k = Some res ->
    exists s' c', repeats R lo hi s c s' c' /\ k s' c' = Some res.
Proof.
  intros Hb. induction n as [|n IH]; intros lo hi s c k res H.
  - cbn in H. destruct lo; [|discriminate].
    assert (k s c = Some res) as Hk.
    { destruct hi as [[|h]|]; [exact H | |];
        (destruct greedy; cbn in H; [exact H | now destruct (k s c)]). }
    exists s, c. split; [constructor | exact Hk].
  - cbn [loop] in H.
    assert (forall res,
      (lo = 0%nat -> hi <> Some 0%nat) ->
      body s c (fun s' c' =>
        if (length s' <? length s)%nat
        then loop body greedy n (pred lo) (option_map pred hi) s' c' k
        else None) = Some res ->
      exists s' c', repeats R lo hi s c s' c' /\ k s' c' = Some res)
      as Hagain.
    { intros res' Hhi H'. apply Hb in H'. destruct H' as (s1 & c1 & H1 & H2).
      destruct (length s1 <? length s)%nat eqn:El; [|discriminate].
      apply Nat.ltb_lt in El. apply IH in H2.
      destruct H2 as (s2 & c2 & H3 & H4).
      exists s2, c2. split; [|exact H4].
      eapply repeats_step; eassumption. }
    destruct lo; [|apply Hagain; [discriminate | exact H]].
    assert (forall res, k s c = Some res ->
      exists s' c', repeats R 0 hi s c s' c' /\ k s' c' = Some res) as Hstop
      by (intros res' H'; exists s, c; split; [constructor | exact H']).
    destruct hi as [[|h]|]; [now apply Hstop | |];
      (destruct greedy; unfold orelse in H;
       [ destruct (body s c _) eqn:E;
           [injection H as <-; apply Hagain; [discriminate | reflexivity]
           | now apply Hstop]
       | destruct (k s c) eqn:E;
           [injection H as <-; now apply Hstop
           | apply Hagain; [discriminate | exact H]] ]).
Qed.

(** Whatever [run] answers comes from a match of the pattern, followed
    by a success of the continuation. *)
Lemma run_sound (nd : Z -> bool) r :
  forall s c k res,
    run nd r s c k = Some res ->
    exists s' c', matches nd r s c s' c' /\ k s' c' = Some res.
Proof.
  induction r as [x| | |r1 IH1 r2 IH2|j r1 IH1|r1 IH1 lo hi greedy];
    intros s c k res H; cbn [run] in H; cbn [matches].
  - destruct s as [|y s]; [discriminate|].
    destruct (y =? x) eqn:E; [|discriminate]. apply Z.eqb_eq in E. subst y.
    exists s, c. auto.
  - destruct s as [|y s]; [discriminate|].
    destruct (y =? 10) eqn:E; [discriminate|]. apply Z.eqb_neq in E.
    exists s, c. split; [exists y; auto | exact H].
  - destruct s as [|y s]; [discriminate|].
    destruct (isdecimal nd y) eqn:E; [|discriminate].
    exists s, c. split; [exists y; auto | exact H].
  - apply IH1 in H. destruct H as (s1 & c1 & H1 & H).
    apply IH2 in H. destruct H as (s2 & c2 & H2 & H).
    exists s2, c2. split; [exists s1, c1; auto | exact H].
  - apply IH1 in H. destruct H as (s1 & c1 & H1 & H).
    exists s1, (set_group j (taken s s1) c1). split; [exists c1; auto | exact H].
  - eapply loop_sound; [exact IH1 | exact H].
Qed.

Lemma repeats_chars (R : str -> captures -> str -> captures -> Prop)
    (P : Z -> Prop) :
  (forall s c s' c', R s c s' c' -> exists a, s = a :: s' /\ P a /\ c' = c) ->
  forall lo hi s c s' c',
    repeats R lo hi s c s' c' ->
    exists v, s = v ++ s' /\ c' = c /\ Forall P v /\
              (lo <= length v)%nat /\
              forall h, hi = Some h -> (lo <= h)%nat -> (length v <= h)%nat.
Proof.
  intros HR lo hi s c s' c' H.
  induction H as [hi s c | lo hi s c s1 c1 s' c' Hhi Hstep Hlt _ IH].
  - exists []. repeat split; [constructor | cbn; lia | cbn; lia].
  - apply HR in Hstep. destruct Hstep as (a & -> & Pa & ->).
    destruct IH as (v & -> & -> & Hv & Hlo & Hh).
    exists (a :: v). repeat split; [now constructor | cbn; lia |].
    intros h -> Hle. cbn [length].
    assert (h <> 0)%nat as Hh0.
    { destruct lo; [|lia]. intros ->. now apply Hhi. }
    specialize (Hh (pred h) eq_refl). lia.
Qed.

Lemma taken_app (v s : str) : taken (v ++ s) s = v.
Proof.
  unfold taken. rewrite length_app, Nat.add_sub.
  rewrite firstn_app, Nat.sub_diag, firstn_all. cbn. apply app_nil_r.
Qed.

Lemma matches_chr nd x s c s' c' :
  matches nd (Chr x) s c s' c' -> exists a, s = a :: s' /\ a = x /\ c' = c.
Proof. intros [-> ->]. eauto. Qed.

(** What a repetition of a pattern of one character reads, on its own and
    inside a group. *)
Lemma run_repeat_chars nd r (P : Z -> Prop) lo hi g :
  (forall s c s' c', matches nd r s c s' c' ->
     exists a, s = a :: s' /\ P a /\ c' = c) ->
  forall s c k res,
    run nd (Repeat r lo hi g) s c k = Some res ->
    exists v s', s = v ++ s' /\ Forall P v /\ (lo <= length v)%nat /\
      (forall h, hi = Some h -> (lo <= h)%nat -> (length v <= h)%nat) /\
      k s' c = Some res.
Proof.
  intros HR s c k res H. apply run_sound in H.
  destruct H as (s' & c' & Hm & Hk). cbn [matches] in Hm.
  apply (repeats_chars _ P HR) in Hm.
  destruct Hm as (v & -> & -> & Hv & Hlo & Hh).
  exists v, s'. auto.
Qed.

Lemma run_group_chars nd i r (P : Z -> Prop) lo hi g :
  (forall s c s' c', matches nd r s c s' c' ->
     exists a, s = a :: s' /\ P a /\ c' = c) ->
  forall s c k res,
    run nd (Group i (Repeat r lo hi g)) s c k = Some res ->
    exists v s', s = v ++ s' /\ Forall P v /\ (lo <= length v)%nat /\
      (forall h, hi = Some h -> (lo <= h)%nat -> (length v <= h)%nat) /\
      k s' (set_group i v c) = Some res.
Proof.
  intros HR s c k res H. rewrite run_group in H.
  apply (run_repeat_chars nd r P lo hi g HR) in H.
  destruct H as (v & s' & -> & Hv & Hlo & Hh & Hk).
  rewrite taken_app in Hk. exists v, s'. auto.
Qed.

Lemma optional_plus (v : str) :
  Forall (fun a => a = 43) v -> (length v <= 1)%nat -> v = [] \/ v = lit "+".
Proof.
  intros Hv Hl. destruct v as [|a [|b v]]; [now left | | cbn in Hl; lia].
  right. inversion Hv; subst. reflexivity.
Qed.

(** The text up to the end of its first line. *)
Lemma first_line (s : str) :
  exists v s', s = v ++ s' /\ Forall (fun a => a <> 10) v /\
               (s' = [] \/ exists t, s' = 10 :: t).
Proof.
  induction s as [|a s (v & s' & -> & Hv & Hs)].
  - exists [], []. repeat split; [constructor | now left].
  - destruct (Z.eq_dec a 10) as [-> | Ha].
    + exists [], (10 :: v ++ s'). repeat split; [constructor | right; eauto].
    + exists (a :: v), s'. repeat split; [now constructor | exact Hs].
Qed.

(** A greedy [.{lo,}] whose continuation accepts the end of the line
    stops there. *)
Lemma greedy_dots nd (v : str) :
  forall n lo s s' c k res,
    s = v ++ s' ->
    Forall (fun a => a <> 10) v ->
    (s' = [] \/ exists t, s' = 10 :: t) ->
    (lo <= length v)%nat ->
    (length s <= n)%nat ->
    k s' c = Some res ->
    loop (run nd Dot) true n lo None s c k = Some res.
Proof.
  induction v as [|a v IH]; intros n lo s s' c k res -> Hv Hs Hlo Hn Hk.
  - cbn in Hlo. assert (lo = 0%nat) as -> by lia. cbn [app].
    destruct n as [|n]; [cbn; exact Hk|].
    cbn [loop]. destruct Hs as [-> | [t ->]]; cbn; exact Hk.
  - destruct n as [|n]; [cbn in Hn; lia|].
    inversion Hv as [|? ? Ha Hv']; subst.
    assert (run nd Dot ((a :: v) ++ s') c
              (fun s1 c1 =>
                 if (length s1 <? length ((a :: v) ++ s'))%nat
                 then loop (run nd Dot) true n (pred lo)
                        (option_map pred None) s1 c1 k
                 else None) = Some res) as Hagain.
    { cbn [run app]. apply Z.eqb_neq in Ha. rewrite Ha.
      replace (length (v ++ s') <? length (a :: v ++ s'))%nat with true
        by (symmetry; apply Nat.ltb_lt; cbn; lia).
      apply (IH n (pred lo) (v ++ s') s' c k res eq_refl Hv' Hs);
        [cbn in Hlo; lia | cbn in Hn; lia | exact Hk]. }
    cbn [loop]. destruct lo; [|exact Hagain].
    unfold orelse. now rewrite Hagain.
Qed.

Lemma run_repeat (nd : Z -> bool) r lo hi g s c k :
  run nd (Repeat r lo hi g) s c k = loop (run nd r) g (length s) lo hi s c k.
Proof. reflexivity. Qed.

(** At the end of a line [(.+)*] has no further iteration. *)
Lemma star_group_stops nd i n (s : str) c k :
  (s = [] \/ exists t, s = 10 :: t) ->
  loop (run nd (Group i (plus Dot))) true n 0 None s c k = k s c.
Proof.
  intros Hs. destruct n as [|n]; [reflexivity|].
  destruct Hs as [-> | [t ->]]; reflexivity.
Qed.

Lemma group_plus_dot_reads nd i (v s' : str) c (k : cont) res :
  v <> [] ->
  Forall (fun a => a <> 10) v ->
  (s' = [] \/ exists t, s' = 10 :: t) ->
  k s' (set_group i v c) = Some res ->
  run nd (Group i (plus Dot)) (v ++ s') c k = Some res.
Proof.
  intros Hne Hv Hs Hk. rewrite run_group. unfold plus. rewrite run_repeat.
  apply (greedy_dots nd v _ _ _ s'); auto.
  - destruct v; [congruence | cbn; lia].
  - now rewrite taken_app.
Qed.

(** [(.+)*] at the end of the pattern reads the rest of the line, which
    is what its group holds if there is any of it. *)
Lemma star_group_reads_the_line nd i (s : str) c :
  exists v s',
    s = v ++ s' /\ Forall (fun a => a <> 10) v /\
    (s' = [] \/ exists t, s' = 10 :: t) /\
    run nd (star (Group i (plus Dot))) s c (fun s' c => Some (s', c)) =
    Some (s', match v with [] => c | _ :: _ => set_group i v c end).
Proof.
  destruct (first_line s) as (v & s' & -> & Hv & Hs).
  exists v, s'. repeat split; [exact Hv | exact Hs |].
  unfold star. rewrite run_repeat.
  destruct v as [|a v].
  - exact (star_group_stops nd i _ s' c (fun s' c => Some (s', c)) Hs).
  - assert (length ((a :: v) ++ s') = S (length (v ++ s'))) as -> by reflexivity.
    cbn [loop]. unfold orelse.
    rewrite (group_plus_dot_reads nd i (a :: v) s' c _
               (s', set_group i (a :: v) c)); [reflexivity | discriminate
               | exact Hv | exact Hs |].
    replace (length s' <? length ((a :: v) ++ s'))%nat with true
      by (symmetry; apply Nat.ltb_lt; cbn; rewrite length_app; lia).
    cbn [option_map pred].
    apply (star_group_stops nd i _ s' _ (fun s' c => Some (s', c)) Hs).
Qed.

Lemma findall_from_first (nd : Z -> bool) fuel r s m ms :
  findall_from nd fuel r s = m :: ms ->
  exists before s' rest c,
    s = before ++ s' /\ match_at nd r s' = Some (rest, c) /\ m = groups5 c.
Proof.
  revert s. induction fuel as [|fuel IH]; intros s H; [discriminate|].
  cbn [findall_from] in H.
  destruct (match_at nd r s) as [[rest c]|] eqn:E.
  - injection H as <- _. exists [], s, rest, c. auto.
  - destruct s as [|y s]; [discriminate|].
    apply IH in H. destruct H as (before & s' & rest & c & -> & H1 & H2).
    exists (y :: before), s', rest, c. auto.
Qed.

(** The parts of a match of [meta_re]. *)
Lemma meta_re_parts (nd : Z -> bool) s rest c :
  match_at nd meta_re s = Some (rest, c) ->
  exists apath unk sep fpath ts sep' xtra,
    s = apath ++ [43] ++ unk ++ sep ++ fpath ++ [43] ++ ts ++ sep' ++
        xtra ++ rest /\
    groups5 c = (apath, unk, fpath, ts, xtra) /\
    (sep = [] \/ sep = lit "+") /\ (sep' = [] \/ sep' = lit "+") /\
    apath <> [] /\ fpath <> [] /\
    (length unk <= 1)%nat /\ (10 <= length ts <= 16)%nat /\
    Forall (fun a => isdecimal nd a = true) (unk ++ ts) /\
    Forall (fun a => a <> 10) (apath ++ fpath ++ xtra) /\
    (rest = [] \/ exists t, rest = 10 :: t).
Proof.
  assert (forall s c s' c', matches nd Dot s c s' c' ->
            exists a, s = a :: s' /\ a <> 10 /\ c' = c) as Hdot
    by (intros ? ? ? ? H; exact H).
  assert (forall s c s' c', matches nd Digit s c s' c' ->
            exists a, s = a :: s' /\ isdecimal nd a = true /\ c' = c) as Hdig
    by (intros ? ? ? ? H; exact H).
  unfold match_at, meta_re. intros H.
  rewrite run_seq in H.
  apply (run_group_chars nd 1 Dot _ _ _ _ Hdot) in H.
  destruct H as (v1 & s1 & -> & Hv1 & Hl1 & _ & H).
  rewrite run_seq in H. apply run_sound in H.
  destruct H as (s2 & c2 & [-> ->] & H).
  rewrite run_seq in H.
  apply (run_group_chars nd 2 Digit _ _ _ _ Hdig) in H.
  destruct H as (v2 & s3 & -> & Hv2 & _ & Hh2 & H).
  rewrite run_seq in H.
  apply (run_repeat_chars nd (Chr 43) _ _ _ _ (matches_chr nd 43)) in H.
  destruct H as (p1 & s4 & -> & Hp1 & _ & Hhp1 & H).
  rewrite run_seq in H.
  apply (run_group_chars nd 3 Dot _ _ _ _ Hdot) in H.
  destruct H as (v3 & s5 & -> & Hv3 & Hl3 & _ & H).
  rewrite run_seq in H. apply run_sound in H.
  destruct H as (s6 & c6 & [-> ->] & H).
  rewrite run_seq in H.
  apply (run_group_chars nd 4 Digit _ _ _ _ Hdig) in H.
  destruct H as (v4 & s7 & -> & Hv4 & Hl4 & Hh4 & H).
  rewrite run_seq in H.
  apply (run_repeat_chars nd (Chr 43) _ _ _ _ (matches_chr nd 43)) in H.
  destruct H as (p2 & s8 & -> & Hp2 & _ & Hhp2 & H).
  destruct (star_group_reads_the_line nd 5 s8
              (set_group 4 v4 (set_group 3 v3 (set_group 2 v2
                 (set_group 1 v1 [])))))
    as (v5 & s9 & -> & Hv5 & Hs9 & Hrun).
  rewrite Hrun in H. injection H as <- <-.
  exists v1, v2, p1, v3, v4, p2, v5.
  repeat split.
  - destruct v5; reflexivity.
  - apply optional_plus; [exact Hp1 | apply (Hhp1 1%nat eq_refl); lia].
  - apply optional_plus; [exact Hp2 | apply (Hhp2 1%nat eq_refl); lia].
  - intros ->. cbn in Hl1. lia.
  - intros ->. cbn in Hl3. lia.
  - apply (Hh2 1%nat eq_refl). lia.
  - exact Hl4.
  - apply (Hh4 16%nat eq_refl). lia.
  - apply Forall_app. auto.
  - rewrite !Forall_app. auto.
  - exact Hs9.
Qed.

Lemma first_match_parts (nd : Z -> bool) text apath unk fpath ts xtra ms :
  findall nd meta_re text = (apath, unk, fpath, ts, xtra) :: ms ->
  exists before sep sep' after,
    text = before ++ apath ++ lit "+" ++ unk ++ sep ++ fpath ++ lit "+" ++
           ts ++ sep' ++ xtra ++ after /\
    (sep = [] \/ sep = lit "+") /\ (sep' = [] \/ sep' = lit "+") /\
    apath <> [] /\ fpath <> [] /\
    (length unk <= 1)%nat /\ (10 <= length ts <= 16)%nat /\
    Forall (fun a => isdecimal nd a = true) (unk ++ ts) /\
    Forall (fun a => a <> 10) (apath ++ fpath ++ xtra) /\
    (after = [] \/ exists t, after = 10 :: t).
Proof.
  intros H.
  apply findall_from_first in H.
  destruct H as (before & s' & rest & c & -> & Hm & Hg).
  apply meta_re_parts in Hm.
  destruct Hm as (v1 & v2 & p1 & v3 & v4 & p2 & v5 & -> & Hg' & Hrest).
  rewrite Hg' in Hg. injection Hg as -> -> -> -> ->.
  exists before, p1, p2, rest. split; [reflexivity | exact Hrest].
Qed.

(** X11. What [findall] reports first for [meta_re] is read off the
    text: the five fields are parts of one line of the text, in their
    order, the first two and the third and fourth with a [+] between
    them, the others with a [+] or nothing between them.  The two paths
    hold a character or more, the second field is a decimal digit or
    empty, the time stamp is 10 to 16 decimal digits, and the last field
    goes on to the end of the line. *)
Theorem parsed_fields_are_parts_of_the_text :
  forall unicode_nd text apath unk fpath ts xtra ms,
    findall unicode_nd meta_re text = (apath, unk, fpath, ts, xtra) :: ms ->
    exists before sep sep' after,
      text = before ++ apath ++ lit "+" ++ unk ++ sep ++ fpath ++ lit "+" ++
             ts ++ sep' ++ xtra ++ after /\
      (sep = [] \/ sep = lit "+") /\ (sep' = [] \/ sep' = lit "+") /\
      apath <> [] /\ fpath <> [] /\
      (length unk <= 1)%nat /\ (10 <= length ts <= 16)%nat /\
      Forall (fun a => isdecimal unicode_nd a = true) (unk ++ ts) /\
      Forall (fun a => a <> 10) (apath ++ fpath ++ xtra) /\
      (after = [] \/ exists t, after = 10 :: t).
Proof. exact first_match_parts. Qed.

Lemma parsed_fields_are_parts_of_the_text_witness :
  exists before sep sep' after,
    lit "thumb1+0+/sdcard/img.jpg+1600000000+" =
      before ++ lit "thumb1" ++ lit "+" ++ lit "0" ++ sep ++
      lit "/sdcard/img.jpg" ++ lit "+" ++ lit "1600000000" ++ sep' ++
      [] ++ after /\
    (sep = [] \/ sep = lit "+") /\ (sep' = [] \/ sep' = lit "+") /\
    lit "thumb1" <> [] /\ lit "/sdcard/img.jpg" <> [] /\
    (length (lit "0") <= 1)%nat /\
    (10 <= length (lit "1600000000") <= 16)%nat /\
    Forall (fun a => isdecimal ascii_only a = true)
      (lit "0" ++ lit "1600000000") /\
    Forall (fun a => a <> 10)
      (lit "thumb1" ++ lit "/sdcard/img.jpg" ++ []) /\
    (after = [] \/ exists t, after = 10 :: t).
Proof.
  apply (parsed_fields_are_parts_of_the_text ascii_only
           (lit "thumb1+0+/sdcard/img.jpg+1600000000+") _ _ _ _ _ []).
  vm_compute. reflexivity.
Defined.

(** ** The rows of a run in database mode and the lines it prints *)

Lemma occurs_firstn (sub data : bytes) (n : nat) :
  occurs sub (firstn n data) -> occurs sub data.
Proof.
  intros (pre & post & H). exists pre, (post ++ skipn n data).
  rewrite <- (firstn_skipn n data) at 1. rewrite H.
  now rewrite <- !app_assoc.
Qed.

(** The two ways a payload is split. *)
Lemma segment_cases (data : bytes) :
  (~ occurs jpeg_header data /\
   segment data =
   (firstn (length data - 1) data, skipn (length data - 1) data)) \/
  (exists n, segment data = (firstn n data, skipn n data) /\
             (n <= length data)%nat /\
             Py.startswith jpeg_header (skipn n data) = true /\
             forall m, (m < n)%nat ->
                       Py.startswith jpeg_header (skipn m data) = false).
Proof.
  destruct (find_from_first jpeg_header data 0)
    as [H | (n & H1 & H2 & H3 & H4)].
  - left. assert (~ occurs jpeg_header data) as Ho
      by (apply find_absent_iff; exact H).
    split; [exact Ho | now apply segment_absent].
  - right. exists n. unfold segment, Py.find. rewrite H1.
    unfold Py.slice_to, Py.slice_from, Py.slice_index.
    destruct (0 + Z.of_nat n <? 0) eqn:E; [apply Z.ltb_lt in E; lia|].
    replace (Nat.min (Z.to_nat (0 + Z.of_nat n)) (length data)) with n by lia.
    auto.
Qed.

(** The marker does not occur in the metadata, and the thumbnail starts
    with the marker unless it is the last byte of a payload that has no
    marker. *)
Lemma segment_shape (data : bytes) :
  ~ occurs jpeg_header (fst (segment data)) /\
  ((exists image, snd (segment data) = jpeg_header ++ image) \/
   (length (snd (segment data)) <= 1)%nat).
Proof.
  destruct (segment_cases data) as [[Ho ->] | (n & -> & Hn & Hst & Hmin)];
    cbn [fst snd].
  - split.
    + intros H. apply Ho. now apply occurs_firstn in H.
    + right. rewrite length_skipn. lia.
  - split.
    + intros (pre & post & H).
      assert (length pre < n)%nat as Hlt.
      { apply (f_equal (@length byte)) in H.
        rewrite length_firstn, !length_app in H. cbn in H. lia. }
      specialize (Hmin _ Hlt).
      assert (Py.startswith jpeg_header (skipn (length pre) data) = true) as E.
      { apply startswith_iff. exists (post ++ skipn n data).
        rewrite <- (firstn_skipn n data) at 1. rewrite H.
        rewrite <- !app_assoc, skipn_app, skipn_all, Nat.sub_diag.
        reflexivity. }
      congruence.
    + left. now apply startswith_iff.
Qed.

Section Rows.

Variable unicode_nd : Z -> bool.
Variable file : bytes.

Lemma stored_blob_unparsed (p : nat) (data : bytes) :
  well_formed_row unicode_nd
    (stored_blob p (None, None, None, None, None) data).
Proof.
  destruct (segment_shape data) as [H1 H2].
  split; [exact H1 | split; [exact H2 | left; cbn; auto]].
Qed.

Lemma stored_blob_parsed (p : nat) (data : bytes) text apath unk fpath ts
    xtra ms :
  findall unicode_nd meta_re text = (apath, unk, fpath, ts, xtra) :: ms ->
  well_formed_row unicode_nd
    (stored_blob p (Some apath, Some unk, Some fpath, Some ts, Some xtra)
       data).
Proof.
  intros H. apply first_match_parts in H.
  destruct H as (before & sep & sep' & after & _ & _ & _ & Ha & Hf & Hu &
                 Ht & Hd & Hn & _).
  destruct (segment_shape data) as [H1 H2].
  split; [exact H1 | split; [exact H2 | right]].
  exists apath, unk, fpath, ts. cbn [stored_blob InternalPath Unk
    OriginalFilePath TimeStamp Extra].
  rewrite !Forall_app in Hn. destruct Hn as (Hn1 & Hn2 & Hn3).
  repeat split; auto; try lia.
  - apply Forall_app. auto.
  - destruct xtra as [|x xtra]; cbn [truthy]; [exact I|].
    split; [discriminate | exact Hn3].
Qed.

Lemma not_understood_lines_app (rows : list blob_row) (r : blob_row) :
  not_understood_lines (rows ++ [r]) =
  not_understood_lines rows ++
  (if understood r then [] else [not_understood (Offset r)]).
Proof.
  unfold not_understood_lines. rewrite filter_app, map_app. cbn [filter].
  destruct (understood r); reflexivity.
Qed.

(** How the loop ends in database mode, with what is printed and
    stored. *)
Lemma database_loop_rows (d : bool) fuel (w : world) r w' :
  stdout w = not_understood_lines (blob w) ->
  Forall (well_formed_row unicode_nd) (blob w) ->
  while_true fuel (iteration unicode_nd (parse_args d false) file) w =
    Some (r, w') ->
  Forall (well_formed_row unicode_nd) (blob w') /\
  match r with
  | Ok _ => stdout w' = not_understood_lines (blob w')
  | SysExit code =>
      code = 1 /\
      exists data,
        stdout w' =
        not_understood_lines (blob w') ++ [codec_detection_error data]
  | Uncaught e =>
      e = struct_error /\ stdout w' = not_understood_lines (blob w')
  end.
Proof.
  intros Hs Hf.
  pose (I := fun w : world =>
    stdout w = not_understood_lines (blob w) /\
    Forall (well_formed_row unicode_nd) (blob w)).
  apply (while_true_ind (iteration unicode_nd (parse_args d false) file) I
           (fun r w' =>
              Forall (well_formed_row unicode_nd) (blob w') /\
              match r with
              | Ok _ => stdout w' = not_understood_lines (blob w')
              | SysExit code =>
                  code = 1 /\
                  exists data,
                    stdout w' =
                    not_understood_lines (blob w') ++
                    [codec_detection_error data]
              | Uncaught e =>
                  e = struct_error /\
                  stdout w' = not_understood_lines (blob w')
              end));
    [ | | | | now split ];
    clear; unfold I; intros w;
    [ intros w' [Hs Hf] | intros w' [Hs Hf] | intros code w' [Hs Hf]
    | intros e w' [Hs Hf] ];
    rewrite iteration_database_cases;
    (destruct (pos w =? fsize file)%nat eqn:E;
     [ | destruct (unpack_8s3I (header_at file (pos w)))
           as [[[[key chksum] recoffset] payloadlen]|] eqn:Hu;
         [ cbv zeta;
           destruct (detected _) as [[codec cp_len]|];
           [ destruct (decode_ignore_total codec
                         (fst (segment (payload_at file (pos w) payloadlen))))
               as [text Ht]; rewrite Ht;
             destruct (findall unicode_nd meta_re text)
               as [|[[[[apath unk] fpath] ts] xtra] ms] eqn:Hfind | ] | ] ]);
    intros [= ]; subst.
  - (* stored, not understood *)
    cbn [stdout blob add_blob_header add_blob add_line set_pos].
    split.
    + rewrite not_understood_lines_app. cbn [understood InternalPath Offset].
      now rewrite Hs.
    + apply Forall_app. split; [exact Hf|]. constructor; [|constructor].
      apply stored_blob_unparsed.
  - (* stored *)
    cbn [stdout blob add_blob_header add_blob add_line set_pos].
    split.
    + rewrite not_understood_lines_app. cbn [understood InternalPath].
      now rewrite app_nil_r.
    + apply Forall_app. split; [exact Hf|]. constructor; [|constructor].
      exact (stored_blob_parsed _ _ _ _ _ _ _ _ _ Hfind).
  - (* break *)
    split; [exact Hf | exact Hs].
  - (* no codec *)
    cbn [stdout blob add_line set_pos].
    split; [exact Hf | split; [reflexivity|]].
    eexists. now rewrite Hs.
  - (* short header *)
    cbn [stdout blob set_pos]. split; [exact Hf | split; [reflexivity | exact Hs]].
Qed.

(** What a run in database mode has stored and printed at its end. *)
Lemma database_run_rows (d : bool) :
  match main unicode_nd (parse_args d false) file with
  | Some (r, w) =>
      Forall (well_formed_row unicode_nd) (blob w) /\
      match r with
      | Ok _ => stdout w = not_understood_lines (blob w)
      | SysExit code =>
          code = 1 /\
          exists l,
            stdout w = not_understood_lines (blob w) ++ [l] /\
            (l = not_a_blob_cache \/ exists data, l = codec_detection_error data)
      | Uncaught e =>
          e = struct_error /\ stdout w = not_understood_lines (blob w)
      end
  | None => False
  end.
Proof.
  destruct (list_eq_dec Byte.byte_eq_dec (firstn 4 file) magic) as [Hm | Hm].
  2:{ rewrite (main_wrong_header unicode_nd _ file Hm).
      cbn [blob stdout]. split; [constructor | split; [reflexivity|]].
      exists not_a_blob_cache. split; [reflexivity | now left]. }
  unfold main. rewrite (before_loop_right _ _ Hm).
  cbn [sanitize parse_args].
  assert (4 <= fsize file)%nat as H4.
  { apply (f_equal (@length byte)) in Hm. rewrite length_firstn in Hm.
    change (length magic) with 4%nat in Hm. unfold fsize, bytes in *. lia. }
  destruct (while_true_returns unicode_nd file (parse_args d false)
              (S (fsize file)) (set_pos 4 start)) as [[r w] Hr];
    [cbn; lia | cbn; lia |].
  rewrite Hr. apply database_loop_rows in Hr; [| reflexivity | constructor].
  destruct Hr as [Hf Hr].
  assert (database (parse_args d false) = true) as Hd by (now destruct d).
  destruct r as [[]|code|e].
  - unfold after_loop, bind. rewrite Hd. cbn. auto.
  - split; [exact Hf|]. destruct Hr as [-> [data Hr]].
    split; [reflexivity|]. exists (codec_detection_error data).
    split; [exact Hr | right; eauto].
  - split; [exact Hf | exact Hr].
Qed.

End Rows.


(** X13. Every row that a run in database mode stores in [blob] is well
    formed, whatever the file: the marker [FF D8 FF] does not occur in its
    raw metadata; its thumbnail starts with the marker or is one byte at
    most; its five fields are either all [None], or the two paths are
    strings that are not empty, [Unk] is one decimal digit or the empty
    string, [TimeStamp] is 10 to 16 decimal digits, and [Extra] is [None]
    or a string that is not empty; no field holds a newline. *)
Theorem stored_rows_are_well_formed :
  forall unicode_nd d file,
    match main unicode_nd (parse_args d false) file with
    | Some (r, w) => Forall (well_formed_row unicode_nd) (blob w)
    | None => False
    end.
Proof.
  intros nd d file. pose proof (database_run_rows nd file d) as H.
  destruct (main nd (parse_args d false) file) as [[r w]|]; [|exact H].
  exact (proj1 H).
Qed.

(** ** Bytes and integers *)

Lemma byte_val_range (b : byte) : 0 <= byte_val b < 256.
Proof.
  unfold byte_val. pose proof (Byte.to_N_bounded b). lia.
Qed.

Lemma byte_val_of (z : Z) : byte_val (byte_of z) = z mod 256.
Proof.
  unfold byte_val, byte_of.
  pose proof (Z.mod_pos_bound z 256 eq_refl) as Hm.
  destruct (Byte.of_N (Z.to_N (z mod 256))) as [b|] eqn:E.
  - apply Byte.to_of_N in E. rewrite E. lia.
  - exfalso. pose proof (Byte.to_of_N_option_map (Z.to_N (z mod 256))) as H.
    rewrite E in H. cbn [option_map] in H.
    destruct (Z.to_N (z mod 256) <=? 255)%N eqn:El; [discriminate|].
    apply N.leb_gt in El. lia.
Qed.

Lemma byte_of_val (b : byte) (k : Z) : byte_of (byte_val b + 256 * k) = b.
Proof.
  unfold byte_of.
  replace ((byte_val b + 256 * k) mod 256) with (byte_val b).
  - unfold byte_val. rewrite N2Z.id, Byte.of_to_N. reflexivity.
  - pose proof (byte_val_range b). Z.to_euclidean_division_equations. lia.
Qed.

Lemma lor_shiftl (a b n : Z) :
  0 <= n -> 0 <= a < 2 ^ n -> Z.lor a (Z.shiftl b n) = a + b * 2 ^ n.
Proof.
  intros Hn Ha. rewrite <- Z.shiftl_mul_pow2 by exact Hn.
  rewrite <- Z.add_lor_land.
  replace (Z.land a (Z.shiftl b n)) with 0; [lia|].
  symmetry. apply Z.bits_inj'. intros m Hm.
  rewrite Z.land_spec, Z.bits_0.
  destruct (Z.lt_ge_cases m n) as [Hlt | Hge].
  - rewrite Z.shiftl_spec_low by exact Hlt. apply andb_false_r.
  - rewrite <- (Z.mod_small a (2 ^ n)) by exact Ha.
    rewrite Z.mod_pow2_bits_high by lia. reflexivity.
Qed.

Lemma le_u16_value (b0 b1 : byte) :
  le_u16 b0 b1 = byte_val b0 + 256 * byte_val b1.
Proof.
  unfold le_u16. pose proof (byte_val_range b0).
  rewrite lor_shiftl; lia.
Qed.

Lemma le_u32_value (b0 b1 b2 b3 : byte) :
  le_u32 b0 b1 b2 b3 =
  byte_val b0 + 256 * (byte_val b1 + 256 * (byte_val b2 + 256 * byte_val b3)).
Proof.
  unfold le_u32.
  pose proof (byte_val_range b0). pose proof (byte_val_range b1).
  pose proof (byte_val_range b2).
  replace (Z.shiftl (byte_val b3) 24)
    with (Z.shiftl (Z.shiftl (byte_val b3) 8) 16)
    by (rewrite Z.shiftl_shiftl by lia; reflexivity).
  rewrite <- Z.shiftl_lor.
  rewrite (lor_shiftl (byte_val b0)), (lor_shiftl (byte_val b2)) by lia.
  rewrite lor_shiftl; lia.
Qed.

Lemma le_u32_range (b0 b1 b2 b3 : byte) : 0 <= le_u32 b0 b1 b2 b3 < 2 ^ 32.
Proof.
  rewrite le_u32_value.
  pose proof (byte_val_range b0). pose proof (byte_val_range b1).
  pose proof (byte_val_range b2). pose proof (byte_val_range b3). lia.
Qed.

Lemma pack_le_u32 (b0 b1 b2 b3 : byte) :
  pack_I (le_u32 b0 b1 b2 b3) = [b0; b1; b2; b3].
Proof.
  rewrite le_u32_value. unfold pack_I.
  pose proof (byte_val_range b0). pose proof (byte_val_range b1).
  pose proof (byte_val_range b2). pose proof (byte_val_range b3).
  set (v1 := byte_val b1 + 256 * (byte_val b2 + 256 * byte_val b3)).
  assert ((byte_val b0 + 256 * v1) / 2 ^ 8 = v1) as ->
    by (change (2 ^ 8) with 256; Z.to_euclidean_division_equations; lia).
  assert ((byte_val b0 + 256 * v1) / 2 ^ 16 =
          byte_val b2 + 256 * byte_val b3) as ->
    by (change (2 ^ 16) with 65536; unfold v1;
        Z.to_euclidean_division_equations; lia).
  assert ((byte_val b0 + 256 * v1) / 2 ^ 24 = byte_val b3 + 256 * 0) as ->
    by (change (2 ^ 24) with 16777216; unfold v1;
        Z.to_euclidean_division_equations; lia).
  unfold v1. now rewrite !byte_of_val.
Qed.

(** X14. Whatever [unpack] returns for a record header, the checksum,
    the blob offset and the payload length are integers from 0 to
    [2^32 - 1] (so that [f.read] is never asked for a negative number of
    bytes), the key has eight bytes, and the four fields determine the
    header: it is the key followed by the three integers, each packed in
    four bytes with the lowest first. *)
Theorem unpacked_header_is_determined_by_its_fields :
  forall h key chksum recoffset payloadlen,
    unpack_8s3I h = Some (key, chksum, recoffset, payloadlen) ->
    length key = 8%nat /\
    0 <= chksum < 2 ^ 32 /\ 0 <= recoffset < 2 ^ 32 /\
    0 <= payloadlen < 2 ^ 32 /\
    h = key ++ pack_I chksum ++ pack_I recoffset ++ pack_I payloadlen.
Proof.
  intros h key chksum recoffset payloadlen H. unfold unpack_8s3I in H.
  do 20 (destruct h as [|? h]; [discriminate|]).
  destruct h; [|discriminate].
  injection H as <- <- <- <-.
  rewrite !pack_le_u32.
  repeat split; try apply le_u32_range.
Qed.

Lemma unpacked_header_is_determined_by_its_fields_witness :
  length [x41; x42; x43; x44; x45; x46; x47; x48] = 8%nat /\
  0 <= 1 < 2 ^ 32 /\ 0 <= 0 < 2 ^ 32 /\ 0 <= 85 < 2 ^ 32 /\
  header_of x55 =
  [x41; x42; x43; x44; x45; x46; x47; x48] ++
  pack_I 1 ++ pack_I 0 ++ pack_I 85.
Proof.
  apply (unpacked_header_is_determined_by_its_fields (header_of x55)).
  reflexivity.
Defined.

(** ** Metadata that was encoded in one of the two codecs *)

Lemma le_u16_encoded (c : Z) :
  0 <= c < 0x10000 -> le_u16 (byte_of c) (byte_of (c / 256)) = c.
Proof.
  intros Hc. rewrite le_u16_value, !byte_val_of.
  Z.to_euclidean_division_equations. lia.
Qed.

Lemma le_u32_encoded (c : Z) :
  0 <= c < 2 ^ 32 ->
  le_u32 (byte_of c) (byte_of (c / 2 ^ 8)) (byte_of (c / 2 ^ 16))
    (byte_of (c / 2 ^ 24)) = c.
Proof.
  intros Hc. rewrite le_u32_value, !byte_val_of.
  change (2 ^ 8) with 256. change (2 ^ 16) with 65536.
  change (2 ^ 24) with 16777216. change (2 ^ 32) with 4294967296 in Hc.
  Z.to_euclidean_division_equations. lia.
Qed.

Lemma not_surrogate (c : Z) :
  is_surrogate c = false ->
  is_high_surrogate c = false /\ is_low_surrogate c = false.
Proof.
  unfold is_surrogate, is_high_surrogate, is_low_surrogate.
  rewrite !andb_false_iff, !Z.leb_gt. lia.
Qed.

Lemma decode_utf_16_le_unit (e : errors) (b0 b1 : byte) (rest : bytes) :
  is_surrogate (le_u16 b0 b1) = false ->
  decode_utf_16_le e (b0 :: b1 :: rest) =
  emit (le_u16 b0 b1) (decode_utf_16_le e rest).
Proof.
  intros H. apply not_surrogate in H. destruct H as [Hh Hl].
  cbn [decode_utf_16_le]. now rewrite Hh, Hl.
Qed.

Lemma decode_utf_16_le_encoded (e : errors) (s : str) :
  Forall bmp_scalar_value s ->
  decode_utf_16_le e (encode_utf_16_le s) = Some s.
Proof.
  induction 1 as [|c s [Hc Hs] _ IH]; [reflexivity|].
  unfold encode_utf_16_le in *. cbn [flat_map app].
  rewrite decode_utf_16_le_unit; rewrite le_u16_encoded by exact Hc;
    [|exact Hs].
  now rewrite IH.
Qed.

Lemma decode_utf_32_le_unit (e : errors) (b0 b1 b2 b3 : byte) (rest : bytes) :
  decode_utf_32_le e (b0 :: b1 :: b2 :: b3 :: rest) =
  if is_surrogate (le_u32 b0 b1 b2 b3) || (0x110000 <=? le_u32 b0 b1 b2 b3)
  then on_error e (decode_utf_32_le e rest)
  else emit (le_u32 b0 b1 b2 b3) (decode_utf_32_le e rest).
Proof. reflexivity. Qed.

Lemma decode_utf_32_le_encoded (e : errors) (s : str) (tail : bytes) :
  Forall scalar_value s ->
  decode_utf_32_le e (encode_utf_32_le s ++ tail) =
  option_map (app s) (decode_utf_32_le e tail).
Proof.
  induction 1 as [|c s [Hc Hs] _ IH].
  - cbn. now destruct (decode_utf_32_le e tail).
  - unfold encode_utf_32_le in *. cbn [flat_map]. unfold pack_I at 1.
    cbn [app]. rewrite decode_utf_32_le_unit, le_u32_encoded by lia.
    rewrite Hs. replace (0x110000 <=? c) with false
      by (symmetry; apply Z.leb_gt; lia).
    cbn [orb]. rewrite IH. unfold emit.
    now destruct (decode_utf_32_le e tail).
Qed.

(** X15. Metadata that is the UTF-16-LE encoding of a text of the Basic
    Multilingual Plane is decoded back to that text: when the text is
    not empty and its second character, if it has one, is at or above
    U+0011 (the two first code units, read as one UTF-32 code point, are
    then past U+10FFFF), the detector settles on [utf-16-le] from the
    first four bytes, and decoding the metadata gives the text. *)
Theorem utf_16_metadata_is_decoded_back :
  forall text,
    Forall bmp_scalar_value text ->
    text <> [] ->
    (forall c0 c1 rest, text = c0 :: c1 :: rest -> 0x11 <= c1) ->
    detected (Py.slice_to 4 (encode_utf_16_le text)) = Some (utf_16_le, 2) /\
    decode utf_16_le ignore (encode_utf_16_le text) = Some text.
Proof.
  intros text Ht Hne H2. split; [|now apply decode_utf_16_le_encoded].
  destruct text as [|c0 [|c1 rest]]; [congruence | |].
  { inversion Ht as [|? ? [Hc0 Hs0] _]; subst.
    unfold encode_utf_16_le. cbn [flat_map app].
    unfold Py.slice_to, Py.slice_index. cbn [length Z.ltb Z.compare].
    replace (Nat.min (Z.to_nat 4) 2) with 2%nat by (cbn; lia).
    cbn [firstn]. unfold detected, decode.
    change (decode_utf_32_le strict [byte_of c0; byte_of (c0 / 256)])
      with (@None str).
    rewrite decode_utf_16_le_unit; rewrite le_u16_encoded by lia; auto. }
  specialize (H2 c0 c1 rest eq_refl).
  inversion Ht as [|? ? [Hc0 Hs0] Ht']; subst.
  inversion Ht' as [|? ? [Hc1 Hs1] _]; subst.
  unfold encode_utf_16_le. cbn [flat_map app].
  unfold Py.slice_to, Py.slice_index. cbn [length Z.ltb Z.compare].
  replace (Nat.min (Z.to_nat 4) _) with 4%nat by (cbn; lia).
  cbn [firstn]. unfold detected, decode.
  rewrite decode_utf_32_le_unit, le_u32_value, !byte_val_of.
  replace (is_surrogate _ || (0x110000 <=? _)) with true.
  2:{ symmetry. apply orb_true_iff. right. apply Z.leb_le.
      Z.to_euclidean_division_equations. lia. }
  cbn [on_error].
  rewrite !decode_utf_16_le_unit; rewrite !le_u16_encoded by lia; auto.
Qed.

Lemma utf_16_metadata_is_decoded_back_witness :
  detected
    (Py.slice_to 4
       (encode_utf_16_le (lit "thumb1+0+/sdcard/img.jpg+1600000000+"))) =
    Some (utf_16_le, 2) /\
  decode utf_16_le ignore
    (encode_utf_16_le (lit "thumb1+0+/sdcard/img.jpg+1600000000+")) =
    Some (lit "thumb1+0+/sdcard/img.jpg+1600000000+").
Proof.
  apply (utf_16_metadata_is_decoded_back
           (lit "thumb1+0+/sdcard/img.jpg+1600000000+")).
  - repeat constructor; vm_compute; congruence.
  - discriminate.
  - intros c0 c1 rest [= <- <- <-]. vm_compute. congruence.
Defined.

(** X16. Metadata that is the UTF-32-LE encoding of a text that is not
    empty, followed by the UTF-16 string [+kar], is decoded to the text
    alone, as the comment above the call of [detect_codec] says: the
    detector settles on [utf-32-le] from the first four bytes, the eight
    bytes of [+kar] are two code points past U+10FFFF, which decoding
    with [errors='ignore'] leaves out and which strict decoding would
    raise on. *)
Theorem utf_32_metadata_is_decoded_without_its_tail :
  forall text,
    Forall scalar_value text ->
    text <> [] ->
    detected (Py.slice_to 4 (encode_utf_32_le text ++ kar)) =
      Some (utf_32_le, 4) /\
    decode utf_32_le ignore (encode_utf_32_le text ++ kar) = Some text /\
    decode utf_32_le strict (encode_utf_32_le text ++ kar) = None.
Proof.
  intros text Ht Hne. unfold decode.
  rewrite !decode_utf_32_le_encoded by exact Ht.
  split; [|split; [cbn; now rewrite app_nil_r | reflexivity]].
  destruct text as [|c rest]; [congruence|].
  inversion Ht as [|? ? [Hc Hs] _]; subst.
  unfold encode_utf_32_le. cbn [flat_map]. unfold pack_I at 1. cbn [app].
  unfold Py.slice_to, Py.slice_index. cbn [length Z.ltb Z.compare].
  replace (Nat.min (Z.to_nat 4) _) with 4%nat by (cbn; lia).
  cbn [firstn]. unfold detected, decode.
  rewrite decode_utf_32_le_unit, le_u32_encoded by lia.
  rewrite Hs. replace (0x110000 <=? c) with false
    by (symmetry; apply Z.leb_gt; lia).
  reflexivity.
Qed.

Lemma utf_32_metadata_is_decoded_without_its_tail_witness :
  detected (Py.slice_to 4 (encode_utf_32_le (lit "thumb1+0+") ++ kar)) =
    Some (utf_32_le, 4) /\
  decode utf_32_le ignore (encode_utf_32_le (lit "thumb1+0+") ++ kar) =
    Some (lit "thumb1+0+") /\
  decode utf_32_le strict (encode_utf_32_le (lit "thumb1+0+") ++ kar) = None.
Proof.
  apply (utf_32_metadata_is_decoded_without_its_tail (lit "thumb1+0+")).
  - repeat constructor; vm_compute; congruence.
  - discriminate.
Defined.
